(** * Narrativa: the game state engine of [src/app/lib/store.ts]

    A shallow embedding of the Zustand store that drives the game: the
    character model, the inventory, world traversal and the turn-based
    combat engine, followed by the properties of the engine that the
    specification states.

    Conventions of the embedding.
    - A TypeScript [number] is an integer [Z]; the engine only ever adds,
      subtracts, compares and floors products of integers by 1.5 and 1.2,
      which are exact on integers ([Z.div] rounds towards minus infinity,
      as [Math.floor] does).
    - [get()] / [set(partial)] of the store are a state monad over
      [GameState.t]; a [const { character } = get()] binds a snapshot that
      later [set] calls of the same action may overwrite the store with.
    - [Math.random()] is an explicit argument of the action that draws it
      (the damage roll [floor(random() * 4)], the encounter roll
      [random() < 0.3]); [uuidv4()] of a new character is an argument too.
      The [id] and [timestamp] of a log entry, which no action ever reads,
      are left out of [GameLogEntry.t].
    - [setTimeout(callback, 1000)] returns the callback to the caller, who
      queues it ([World.t]) and runs it later on the store as it is then.
    - [locations] is an object literal: indexing it finds the six keys it
      declares and, failing these, the members every object inherits from
      [Object.prototype] ([Place], [locationsAt]). *)

From stdpp Require Import base list strings gmap pretty.
From Stdlib Require Import ZArith Lia.

Local Open Scope string_scope.
Local Open Scope list_scope.
Local Open Scope Z_scope.

(** ** Data model ([types], the file the store imports) *)

Inductive CharacterClass := Warrior | Mage | Rogue | Cleric.

Inductive CharacterRelic :=
BladeOfEmber | StaffOfWhispers | ShadowCloak | DivineAmulet.

Module ItemEffect.
Inductive kind := heal | damage | buff | debuff.
Inductive scope := self | enemy | allies.
Record t := mk {
  type : kind;
  target : scope;
  amount : Z;
  duration : option Z
}.
End ItemEffect.

Module Item.
Inductive kind := weapon | armor | potion | quest | misc.
Inductive rarity_t := common | uncommon | rare | epic | legendary.
Record t := mk {
  id : string;
  name : string;
  description : string;
  type : kind;
  rarity : rarity_t;
  value : Z;
  effects : option (list ItemEffect.t);
  usable : bool
}.
End Item.

Module Ability.
Inductive kind := attack | heal | buff | debuff | utility.
Record t := mk {
  id : string;
  name : string;
  description : string;
  damage : option Z;
  healing : option Z;
  manaCost : Z;
  cooldown : Z;
  aoe : bool;
  type : kind
}.
End Ability.

Module Stats.
Record t := mk {
  strength : Z;
  dexterity : Z;
  constitution : Z;
  intelligence : Z;
  wisdom : Z;
  charisma : Z
}.
End Stats.

Module Character.
Record t := mk {
  id : string;
  name : string;
  description : string;
  class : CharacterClass;
  relic : CharacterRelic;
  level : Z;
  experience : Z;
  health : Z;
  maxHealth : Z;
  mana : Z;
  maxMana : Z;
  inventory : list Item.t;
  stats : Stats.t;
  abilities : list Ability.t;
  gold : Z
}.

(** [{ ...character, inventory: inv }] *)
Definition with_inventory (c : t) (inv : list Item.t) : t :=
  mk (id c) (name c) (description c) (class c) (relic c) (level c)
     (experience c) (health c) (maxHealth c) (mana c) (maxMana c)
     inv (stats c) (abilities c) (gold c).

(** [{ ...character, health: h }] *)
Definition with_health (c : t) (h : Z) : t :=
  mk (id c) (name c) (description c) (class c) (relic c) (level c)
     (experience c) h (maxHealth c) (mana c) (maxMana c)
     (inventory c) (stats c) (abilities c) (gold c).

(** [{ ...character, experience: e }] *)
Definition with_experience (c : t) (e : Z) : t :=
  mk (id c) (name c) (description c) (class c) (relic c) (level c)
     e (health c) (maxHealth c) (mana c) (maxMana c)
     (inventory c) (stats c) (abilities c) (gold c).

(** [{ ...character, gold: g }] *)
Definition with_gold (c : t) (g : Z) : t :=
  mk (id c) (name c) (description c) (class c) (relic c) (level c)
     (experience c) (health c) (maxHealth c) (mana c) (maxMana c)
     (inventory c) (stats c) (abilities c) g.

(** The object literal that [gainExperience] writes on a level-up. *)
Definition leveled_up (c : t) (lvl e mh mm : Z) (st : Stats.t) : t :=
  mk (id c) (name c) (description c) (class c) (relic c) lvl
     e mh mh mm mm (inventory c) st (abilities c) (gold c).
End Character.

Module EnemyStats.
Record t := mk { strength : Z; dexterity : Z; constitution : Z }.
End EnemyStats.

Module Enemy.
Record t := mk {
  id : string;
  name : string;
  description : string;
  level : Z;
  health : Z;
  maxHealth : Z;
  stats : EnemyStats.t;
  abilities : list Ability.t;
  drops : list Item.t;
  experience : Z;
  gold : Z
}.

(** [{ ...enemy, health: h }] *)
Definition with_health (e : t) (h : Z) : t :=
  mk (id e) (name e) (description e) (level e) h (maxHealth e)
     (stats e) (abilities e) (drops e) (experience e) (gold e).
End Enemy.

Module Quest.
Inductive objective_kind := kill | collect | interact | explore.
Record objective := mk_objective {
  objective_id : string;
  objective_description : string;
  objective_type : objective_kind;
  objective_target : string;
  count : Z;
  progress : Z;
  objective_isCompleted : bool
}.
Inductive reward_kind := experience | gold | item.
Record reward := mk_reward {
  reward_type : reward_kind;
  reward_amount : Z;
  reward_item : option Item.t
}.
Record t := mk {
  id : string;
  name : string;
  description : string;
  objectives : list objective;
  rewards : list reward;
  isCompleted : bool;
  isActive : bool
}.
End Quest.

Module NPC.
Inductive attitude_t := friendly | neutral | hostile.
Record response := mk_response {
  response_id : string;
  response_text : string;
  condition : option string;
  action : option string
}.
Record dialog_option := mk_dialog {
  dialog_id : string;
  dialog_text : string;
  playerResponse : list string;
  responses : list response
}.
Record t := mk {
  id : string;
  name : string;
  description : string;
  attitude : attitude_t;
  dialog : list dialog_option;
  quests : option (list Quest.t);
  shop : option (list Item.t)
}.
End NPC.

Module Location.
Record t := mk {
  id : string;
  name : string;
  description : string;
  image : option string;
  connections : list string;
  npcs : option (list NPC.t);
  enemies : option (list Enemy.t);
  items : option (list Item.t);
  quests : option (list Quest.t)
}.
End Location.

(** A value that [locations[locationId]] can give, and so that
    [currentLocation] can hold: a location that the catalog declares, or
    the member of [Object.prototype] that the object literal inherits
    under that key (a function, or the prototype itself for [__proto__]). *)
Inductive Place :=
| Catalogued (location : Location.t)
| Inherited (key : string).

Module GameLogEntry.
Inductive kind := narrative | dialog | combat | system.
Record t := mk { text : string; type : kind }.
End GameLogEntry.

Module CombatState.
Record t := mk {
  inCombat : bool;
  enemies : list Enemy.t;
  playerTurn : bool;
  round : Z;
  combatLog : list string
}.
End CombatState.

Module GameState.
Record t := mk {
  character : option Character.t;
  currentLocation : option Place;
  gameLog : list GameLogEntry.t;
  quests : list Quest.t;
  combat : option CombatState.t;
  visitedLocations : list string;
  gameTime : Z
}.

(** [set({ character: c })] *)
Definition with_character (c : option Character.t) (s : t) : t :=
  mk c (currentLocation s) (gameLog s) (quests s) (combat s)
     (visitedLocations s) (gameTime s).

(** [set({ combat: c })] *)
Definition with_combat (c : option CombatState.t) (s : t) : t :=
  mk (character s) (currentLocation s) (gameLog s) (quests s) c
     (visitedLocations s) (gameTime s).

(** [set({ gameLog: l })] *)
Definition with_gameLog (l : list GameLogEntry.t) (s : t) : t :=
  mk (character s) (currentLocation s) l (quests s) (combat s)
     (visitedLocations s) (gameTime s).

(** [set({ currentLocation: l, visitedLocations: v })] *)
Definition with_location (l : Place) (v : list string) (s : t) : t :=
  mk (character s) (Some l) (gameLog s) (quests s) (combat s)
     v (gameTime s).

(** The initial state of the store. *)
Definition initial : t := mk None None [] [] None [] 0.
End GameState.

(** ** The store monad: [get], [set] and sequencing *)

Definition Store (A : Type) : Type := GameState.t -> A * GameState.t.

Definition get : Store GameState.t := fun s => (s, s).

Definition set (f : GameState.t -> GameState.t) : Store unit :=
fun s => (tt, f s).

Definition exec {A} (m : Store A) (s : GameState.t) : GameState.t := snd (m s).

#[global] Instance store_ret : MRet Store := fun A a s => (a, s).

#[global] Instance store_bind : MBind Store :=
fun A B k m s => let (a, s') := m s in k a s'.

(** [xs.forEach(x => body(x))] *)
Fixpoint forEach {A} (xs : list A) (body : A -> Store unit) : Store unit :=
match xs with
| [] => mret tt
| x :: rest => body x ;; forEach rest body
end.

(** [xs.findIndex(p)]; JavaScript's [-1] is [None]. *)
Fixpoint findIndex {A} (p : A -> bool) (xs : list A) : option nat :=
match xs with
| [] => None
| x :: rest => if p x then Some 0%nat else S <$> findIndex p rest
end.

(** ** World catalog *)

Definition shadowWolf : Enemy.t :=
Enemy.mk "wolf1" "Shadow Wolf"
  "A wolf with fur as black as midnight and eyes that glow with an unnatural red light."
  1 15 15 (EnemyStats.mk 3 4 2) [] [] 10 0.

Definition reanimatedSkeleton : Enemy.t :=
Enemy.mk "skeleton1" "Reanimated Skeleton"
  "A skeleton animated by dark magic, its bones yellowed with age. It clutches a rusted sword in its bony hands."
  2 20 20 (EnemyStats.mk 4 2 3) [] [] 20 5.

(** The own properties of the [locations] object literal. *)
Definition locations : gmap string Location.t :=
list_to_map [
  ("village", Location.mk "village" "Eldermoor Village"
     "A small, dreary settlement shrouded in perpetual twilight. Dilapidated wooden buildings line the muddy streets, and villagers hurry about with wary eyes."
     None ["forest"; "tavern"; "blacksmith"] (Some []) None None None);
  ("tavern", Location.mk "tavern" "The Howling Wolf Tavern"
     "A dimly lit tavern with rough-hewn wooden tables and the smell of stale ale. A few patrons huddle in corners, speaking in hushed tones."
     None ["village"] (Some []) None None None);
  ("forest", Location.mk "forest" "The Whispering Woods"
     "Ancient trees loom overhead, their twisted branches blocking what little light filters through the perpetual mist. Strange sounds echo from deep within."
     None ["village"; "ruins"] None (Some [shadowWolf]) None None);
  ("blacksmith", Location.mk "blacksmith" "The Smoldering Forge"
     "A soot-covered workshop where the village blacksmith crafts weapons and armor. The heat from the forge provides rare warmth in this cold place."
     None ["village"] (Some []) None None None);
  ("ruins", Location.mk "ruins" "Ancient Temple Ruins"
     "Crumbling stone structures covered in strange symbols. The air here feels charged with forgotten magic."
     None ["forest"; "crypt"] None (Some []) None None);
  ("crypt", Location.mk "crypt" "The Forgotten Crypt"
     "A dark, underground chamber filled with ancient sarcophagi. The walls are adorned with faded murals depicting strange rituals."
     None ["ruins"] None (Some [reanimatedSkeleton]) None None)
].

(** The properties that an object literal inherits from
    [Object.prototype] (ECMAScript, section "Properties of the Object
    Prototype Object" and its Annex B additions), each with the text that
    [`${member.name}`] gives: the name of the function, and ["undefined"]
    for [__proto__], which is the prototype object and has no [name]. *)
Definition inheritedMembers : list (string * string) :=
[ ("constructor", "Object");
  ("hasOwnProperty", "hasOwnProperty");
  ("isPrototypeOf", "isPrototypeOf");
  ("propertyIsEnumerable", "propertyIsEnumerable");
  ("toLocaleString", "toLocaleString");
  ("toString", "toString");
  ("valueOf", "valueOf");
  ("__defineGetter__", "__defineGetter__");
  ("__defineSetter__", "__defineSetter__");
  ("__lookupGetter__", "__lookupGetter__");
  ("__lookupSetter__", "__lookupSetter__");
  ("__proto__", "undefined") ].

Definition isInherited (key : string) : bool :=
existsb (String.eqb key) (map fst inheritedMembers).

(** [locations[locationId]]: an own key shadows an inherited one, and
    [None] is JavaScript's [undefined]. *)
Definition locationsAt (locationId : string) : option Place :=
match locations !! locationId with
| Some location => Some (Catalogued location)
| None => if isInherited locationId then Some (Inherited locationId) else None
end.

(** [`${location.name}`] *)
Definition placeName (place : Place) : string :=
match place with
| Catalogued location => Location.name location
| Inherited key =>
    match List.find (fun member => String.eqb (fst member) key) inheritedMembers with
    | Some member => snd member
    | None => "undefined"
    end
end.

(** [location.enemies]: no inherited member has such a property. *)
Definition placeEnemies (place : Place) : option (list Enemy.t) :=
match place with
| Catalogued location => Location.enemies location
| Inherited _ => None
end.

(** ** Helpers of the store *)

(** The [default] branch of the source's [switch] is not reachable from a
    value of the union type [CharacterClass]. *)
Definition getBaseStats (characterClass : CharacterClass) : Stats.t :=
match characterClass with
| Warrior => Stats.mk 8 5 7 3 4 5
| Mage => Stats.mk 3 4 4 8 7 6
| Rogue => Stats.mk 5 8 5 6 4 6
| Cleric => Stats.mk 5 4 6 5 8 7
end.

(** [Math.floor(baseDamage * 1.5) + Math.floor(Math.random() * 4)], with
    [roll] the value of the second floor. *)
Definition calculateDamage (roll : Z) (strength dexterity : Z) (isRanged : bool) : Z :=
let baseDamage := if isRanged then dexterity else strength in
(3 * baseDamage) / 2 + roll.

(** [Math.max(1, Math.floor(enemy.stats.strength * 1.2))] *)
Definition enemyDamage (enemy : Enemy.t) : Z :=
Z.max 1 ((6 * EnemyStats.strength (Enemy.stats enemy)) / 5).

(** The class-specific growth of [gainExperience]. *)
Definition grownStats (class : CharacterClass) (st : Stats.t) : Stats.t :=
match class with
| Warrior =>
    Stats.mk (Stats.strength st + 2) (Stats.dexterity st) (Stats.constitution st + 1)
             (Stats.intelligence st) (Stats.wisdom st) (Stats.charisma st)
| Mage =>
    Stats.mk (Stats.strength st) (Stats.dexterity st) (Stats.constitution st)
             (Stats.intelligence st + 2) (Stats.wisdom st + 1) (Stats.charisma st)
| Rogue =>
    Stats.mk (Stats.strength st) (Stats.dexterity st + 2) (Stats.constitution st)
             (Stats.intelligence st) (Stats.wisdom st) (Stats.charisma st + 1)
| Cleric =>
    Stats.mk (Stats.strength st) (Stats.dexterity st) (Stats.constitution st + 1)
             (Stats.intelligence st) (Stats.wisdom st + 2) (Stats.charisma st)
end.

(** ** Character actions *)

Definition createNewCharacter (uuid name description : string)
  (characterClass : CharacterClass) (relic : CharacterRelic) : Store unit :=
let baseStats := getBaseStats characterClass in
let initialHealth := 20 + Stats.constitution baseStats * 5 in
let initialMana := Stats.intelligence baseStats * 10 in
let newCharacter :=
  Character.mk uuid name description characterClass relic 1 0
    initialHealth initialHealth initialMana initialMana [] baseStats [] 10 in
set (GameState.with_character (Some newCharacter)).

Definition addItemToInventory (item : Item.t) : Store unit :=
s ← get;
match GameState.character s with
| None => mret tt
| Some character =>
    set (GameState.with_character
           (Some (Character.with_inventory character
                    (Character.inventory character ++ [item]))))
end.

Definition removeItemFromInventory (itemId : string) : Store unit :=
s ← get;
match GameState.character s with
| None => mret tt
| Some character =>
    set (GameState.with_character
           (Some (Character.with_inventory character
                    (List.filter (fun item => negb (String.eqb (Item.id item) itemId))
                                 (Character.inventory character)))))
end.

Definition addToGameLog (text : string) (type : GameLogEntry.kind) : Store unit :=
let newEntry := GameLogEntry.mk text type in
set (fun state => GameState.with_gameLog (GameState.gameLog state ++ [newEntry]) state).

(** The body of the [forEach] of [useItem]: [character] and [item] are the
    snapshots taken when [useItem] started. *)
Definition applyEffect (character : Character.t) (item : Item.t)
  (effect : ItemEffect.t) : Store unit :=
match ItemEffect.type effect, ItemEffect.target effect with
| ItemEffect.heal, ItemEffect.self =>
    let newHealth :=
      Z.min (Character.health character + ItemEffect.amount effect)
            (Character.maxHealth character) in
    set (GameState.with_character (Some (Character.with_health character newHealth)));;
    addToGameLog ("You used " +:+ Item.name item +:+ " and restored "
                  +:+ pretty (ItemEffect.amount effect) +:+ " health.")
                 GameLogEntry.system
| _, _ => mret tt
end.

Definition useItem (itemId : string) : Store unit :=
s ← get;
match GameState.character s with
| None => mret tt
| Some character =>
    match List.find (fun i => String.eqb (Item.id i) itemId)
                    (Character.inventory character) with
    | None => mret tt
    | Some item =>
        if negb (Item.usable item) then mret tt else
        match Item.effects item with
        | Some effects => forEach effects (applyEffect character item)
        | None => mret tt
        end;;
        removeItemFromInventory itemId
    end
end.

Definition gainExperience (amount : Z) : Store unit :=
s ← get;
match GameState.character s with
| None => mret tt
| Some character =>
    let newExperience := Character.experience character + amount in
    let experienceToNextLevel := Character.level character * 100 in
    if newExperience >=? experienceToNextLevel then
      let newLevel := Character.level character + 1 in
      let remainingExperience := newExperience - experienceToNextLevel in
      let newStats := grownStats (Character.class character) (Character.stats character) in
      let newMaxHealth := 20 + Stats.constitution newStats * 5 in
      let newMaxMana := Stats.intelligence newStats * 10 in
      set (GameState.with_character
             (Some (Character.leveled_up character newLevel remainingExperience
                      newMaxHealth newMaxMana newStats)));;
      addToGameLog ("You gained " +:+ pretty amount
                    +:+ " experience and leveled up to level " +:+ pretty newLevel +:+ "!")
                   GameLogEntry.system
    else
      set (GameState.with_character
             (Some (Character.with_experience character newExperience)));;
      addToGameLog ("You gained " +:+ pretty amount +:+ " experience.")
                   GameLogEntry.system
end.

(** ** Combat actions *)

Definition startCombat (enemies : list Enemy.t) : Store unit :=
let combatState := CombatState.mk true enemies true 1 [] in
set (GameState.with_combat (Some combatState));;
addToGameLog ("Combat started! You are facing "
              +:+ String.concat ", " (map Enemy.name enemies) +:+ ".")
             GameLogEntry.combat.

(** The accumulators of [endCombat] are local variables: the sums do not
    depend on the store. *)
Definition totalExperience (enemies : list Enemy.t) : Z :=
fold_left (fun total enemy => total + Enemy.experience enemy) enemies 0.

Definition totalGold (enemies : list Enemy.t) : Z :=
fold_left (fun total enemy => total + Enemy.gold enemy) enemies 0.

Definition endCombat : Store unit :=
s ← get;
match GameState.combat s, GameState.character s with
| Some combat, Some character =>
    let totalExperience := totalExperience (CombatState.enemies combat) in
    let totalGold := totalGold (CombatState.enemies combat) in
    forEach (CombatState.enemies combat) (fun enemy =>
      forEach (Enemy.drops enemy) addItemToInventory);;
    gainExperience totalExperience;;
    set (GameState.with_character
           (Some (Character.with_gold character (Character.gold character + totalGold))));;
    addToGameLog ("Combat ended. You gained " +:+ pretty totalExperience
                  +:+ " experience and " +:+ pretty totalGold +:+ " gold.")
                 GameLogEntry.combat;;
    set (GameState.with_combat None)
| _, _ => mret tt
end.

(** The callback that [attackEnemy] hands to [setTimeout]: it reads the
    store when it runs. *)
Definition enemyTurn : Store unit :=
s ← get;
match GameState.combat s, GameState.character s with
| Some combat, Some character =>
    let totalDamage :=
      fold_left (fun total enemy => total + enemyDamage enemy)
                (CombatState.enemies combat) 0 in
    let newHealth := Z.max 0 (Character.health character - totalDamage) in
    set (fun state =>
           GameState.with_combat
             (Some (CombatState.mk (CombatState.inCombat combat)
                      (CombatState.enemies combat) true
                      (CombatState.round combat) (CombatState.combatLog combat)))
             (GameState.with_character
                (Some (Character.with_health character newHealth)) state));;
    addToGameLog ("Enemies attack! You take " +:+ pretty totalDamage +:+ " damage.")
                 GameLogEntry.combat;;
    if newHealth <=? 0 then
      addToGameLog "You have been defeated! Game over." GameLogEntry.system
    else mret tt
| _, _ => mret tt
end.

Definition newEnemyHealth (enemy : Enemy.t) (damage : Z) : Z :=
Z.max 0 (Enemy.health enemy - damage).

Definition newEnemies (combat : CombatState.t) (enemyIndex : nat)
  (enemy : Enemy.t) (damage : Z) : list Enemy.t :=
<[enemyIndex := Enemy.with_health enemy (newEnemyHealth enemy damage)]>
  (CombatState.enemies combat).

(** First half of [attackEnemy], once the target is found: the blow is
    written to the store and logged. *)
Definition strike (combat : CombatState.t) (enemyIndex : nat)
  (enemy : Enemy.t) (damage : Z) : Store unit :=
set (GameState.with_combat
       (Some (CombatState.mk (CombatState.inCombat combat)
                (newEnemies combat enemyIndex enemy damage)
                false
                (if newEnemyHealth enemy damage <=? 0
                 then CombatState.round combat
                 else CombatState.round combat + 1)
                (CombatState.combatLog combat))));;
addToGameLog ("You hit " +:+ Enemy.name enemy +:+ " for " +:+ pretty damage +:+ " damage.")
             GameLogEntry.combat.

(** Second half of [attackEnemy]: defeat handling, or the enemy turn
    passed to [setTimeout].  The result is the scheduled callback. *)
Definition resolve (combat : CombatState.t) (enemyIndex : nat)
  (enemy : Enemy.t) (damage : Z) : Store (option (Store unit)) :=
if newEnemyHealth enemy damage <=? 0 then
  addToGameLog ("You defeated " +:+ Enemy.name enemy +:+ "!") GameLogEntry.combat;;
  let remainingEnemies :=
    List.filter (fun e => Enemy.health e >? 0) (newEnemies combat enemyIndex enemy damage) in
  if (length remainingEnemies =? 0)%nat then
    endCombat;;
    mret None
  else
    set (GameState.with_combat
           (Some (CombatState.mk (CombatState.inCombat combat) remainingEnemies
                    true (CombatState.round combat) (CombatState.combatLog combat))));;
    mret None
else mret (Some enemyTurn).

Definition attackEnemy (roll : Z) (enemyId abilityName : string)
  : Store (option (Store unit)) :=
s ← get;
match GameState.combat s, GameState.character s with
| Some combat, Some character =>
    match findIndex (fun e => String.eqb (Enemy.id e) enemyId)
                    (CombatState.enemies combat) with
    | None => mret None
    | Some enemyIndex =>
        match CombatState.enemies combat !! enemyIndex with
        | None => mret None
        | Some enemy =>
            let damage :=
              calculateDamage roll (Stats.strength (Character.stats character))
                              (Stats.dexterity (Character.stats character)) false in
            strike combat enemyIndex enemy damage;;
            resolve combat enemyIndex enemy damage
        end
    end
| _, _ => mret None
end.

(** ** World actions *)

(** [encounter] is the outcome of [Math.random() < 0.3]. *)
Definition moveToLocation (encounter : bool) (locationId : string) : Store unit :=
match locationsAt locationId with
| None => mret tt
| Some location =>
    s ← get;
    let visitedLocations := GameState.visitedLocations s in
    let newVisitedLocations :=
      if existsb (String.eqb locationId) visitedLocations
      then visitedLocations
      else (visitedLocations ++ [locationId])%list in
    let hasEnemies :=
      match placeEnemies location with
      | Some enemies => (0 <? length enemies)%nat
      | None => false
      end in
    let randomEncounter := hasEnemies && encounter in
    set (GameState.with_location location newVisitedLocations);;
    addToGameLog ("You have moved to " +:+ placeName location +:+ ".")
                 GameLogEntry.narrative;;
    match randomEncounter, placeEnemies location with
    | true, Some enemies => startCombat enemies
    | _, _ => mret tt
    end
end.

Definition startNewGame (encounter : bool) : Store unit :=
s ← get;
match GameState.character s with
| None => mret tt
| Some _ =>
    moveToLocation encounter "village";;
    addToGameLog "Your adventure begins in the cursed village of Eldermoor. Darkness lurks in every shadow, but perhaps you can find the light..."
                 GameLogEntry.narrative
end.

(** ** The session: the store and its pending timers *)

Module World.
Record t := mk {
  store : GameState.t;
  timers : list (Store unit)
}.

Definition initial : t := mk GameState.initial [].
End World.

(** The command surface, with the random draws of each command. [Elapse]
    is the passage of the delay of the oldest pending timer. *)
Inductive Command :=
| CreateCharacter (uuid name description : string)
    (characterClass : CharacterClass) (relic : CharacterRelic)
| GainExperience (amount : Z)
| AddItem (item : Item.t)
| RemoveItem (itemId : string)
| UseItem (itemId : string)
| MoveToLocation (encounter : bool) (locationId : string)
| StartCombat (enemies : list Enemy.t)
| AttackEnemy (roll : Z) (enemyId abilityName : string)
| EndCombat
| Elapse.

Definition act (m : Store unit) (w : World.t) : World.t :=
World.mk (exec m (World.store w)) (World.timers w).

Definition step (w : World.t) (cmd : Command) : World.t :=
match cmd with
| CreateCharacter uuid name description characterClass relic =>
    act (createNewCharacter uuid name description characterClass relic) w
| GainExperience amount => act (gainExperience amount) w
| AddItem item => act (addItemToInventory item) w
| RemoveItem itemId => act (removeItemFromInventory itemId) w
| UseItem itemId => act (useItem itemId) w
| MoveToLocation encounter locationId => act (moveToLocation encounter locationId) w
| StartCombat enemies => act (startCombat enemies) w
| AttackEnemy roll enemyId abilityName =>
    let (scheduled, s) := attackEnemy roll enemyId abilityName (World.store w) in
    World.mk s (World.timers w ++ option_list scheduled)
| EndCombat => act endCombat w
| Elapse =>
    match World.timers w with
    | [] => w
    | callback :: rest => World.mk (exec callback (World.store w)) rest
    end
end.

Definition run (w : World.t) (cmds : list Command) : World.t :=
fold_left step cmds w.

(** ** Functions that describe the outcome of an action *)

(** The character and the log entry that [gainExperience] writes. *)
Definition gained (c : Character.t) (amount : Z) : Character.t :=
if Character.experience c + amount >=? Character.level c * 100 then
  let st := grownStats (Character.class c) (Character.stats c) in
  Character.leveled_up c (Character.level c + 1)
    (Character.experience c + amount - Character.level c * 100)
    (20 + Stats.constitution st * 5) (Stats.intelligence st * 10) st
else Character.with_experience c (Character.experience c + amount).

Definition gainedEntry (c : Character.t) (amount : Z) : GameLogEntry.t :=
if Character.experience c + amount >=? Character.level c * 100 then
  GameLogEntry.mk ("You gained " +:+ pretty amount
                   +:+ " experience and leveled up to level "
                   +:+ pretty (Character.level c + 1) +:+ "!") GameLogEntry.system
else
  GameLogEntry.mk ("You gained " +:+ pretty amount +:+ " experience.")
                  GameLogEntry.system.

(** Health held by the store after the [forEach] of [useItem] went through
    [effects], when the store held [h] before: a heal on self writes the
    snapshot's health plus its amount, whatever the store held. *)
Definition healed (c : Character.t) (effects : list ItemEffect.t) (h : Z) : Z :=
fold_left (fun h effect =>
             match ItemEffect.type effect, ItemEffect.target effect with
             | ItemEffect.heal, ItemEffect.self =>
                 Z.min (Character.health c + ItemEffect.amount effect)
                       (Character.maxHealth c)
             | _, _ => h
             end) effects h.

(** The log entries of that [forEach], one per heal on self. *)
Definition healEntries (item : Item.t) (effects : list ItemEffect.t)
  : list GameLogEntry.t :=
flat_map (fun effect =>
            match ItemEffect.type effect, ItemEffect.target effect with
            | ItemEffect.heal, ItemEffect.self =>
                [GameLogEntry.mk ("You used " +:+ Item.name item +:+ " and restored "
                                  +:+ pretty (ItemEffect.amount effect) +:+ " health.")
                                 GameLogEntry.system]
            | _, _ => []
            end) effects.

(** [item.effects], with the absent list read as the empty one. *)
Definition effectsOf (item : Item.t) : list ItemEffect.t :=
default [] (Item.effects item).

(** What the specification asks of several heals: each one adds to the
    health reached so far, clamped at [maxHealth]. *)
Definition accumulatedHeal (c : Character.t) (effects : list ItemEffect.t) (h : Z) : Z :=
fold_left (fun h effect =>
             match ItemEffect.type effect, ItemEffect.target effect with
             | ItemEffect.heal, ItemEffect.self =>
                 Z.min (h + ItemEffect.amount effect) (Character.maxHealth c)
             | _, _ => h
             end) effects h.

(** ** Invariants of the session *)

(** The roster of an active combat is not empty. *)
Definition rosterNonEmpty (s : GameState.t) : Prop :=
forall cb,
  GameState.combat s = Some cb ->
  CombatState.inCombat cb = true ->
  CombatState.enemies cb <> [].

(** [0 <= health <= maxHealth] and [0 <= mana <= maxMana]. *)
Definition vitals (c : Character.t) : Prop :=
(0 <= Character.health c <= Character.maxHealth c)
/\ (0 <= Character.mana c <= Character.maxMana c).

Definition vitalsHold (s : GameState.t) : Prop :=
forall c, GameState.character s = Some c -> vitals c.

(** No heal on self of the item has a negative amount. *)
Definition healsNonNegative (item : Item.t) : Prop :=
Forall (fun effect =>
          match ItemEffect.type effect, ItemEffect.target effect with
          | ItemEffect.heal, ItemEffect.self => 0 <= ItemEffect.amount effect
          | _, _ => True
          end) (effectsOf item).

(** Commands that start a combat name at least one enemy. *)
Definition namesAnEnemy (cmd : Command) : Prop :=
match cmd with
| StartCombat enemies => enemies <> []
| _ => True
end.

(** Commands that bring items add none whose heal is negative: the item of
    an addItem, the drops of the enemies of a startCombat. *)
Definition addsNoNegativeHeal (cmd : Command) : Prop :=
match cmd with
| AddItem item => healsNonNegative item
| StartCombat enemies =>
    Forall (fun enemy => Forall healsNonNegative (Enemy.drops enemy)) enemies
| _ => True
end.

(** The invariant carried through a run for the vitals: the stats that
    the maxima are recomputed from are not negative, and neither are the
    heals of the inventory. *)
Definition sound (c : Character.t) : Prop :=
vitals c
/\ 0 <= Stats.constitution (Character.stats c)
/\ 0 <= Stats.intelligence (Character.stats c)
/\ Forall healsNonNegative (Character.inventory c).

Definition soundStore (s : GameState.t) : Prop :=
forall c, GameState.character s = Some c -> sound c.

Definition onlyEnemyTurns (w : World.t) : Prop :=
Forall (fun callback => callback = enemyTurn) (World.timers w).

(** ** Sample data for concrete runs *)

Definition healOnSelf (amount : Z) : ItemEffect.t :=
ItemEffect.mk ItemEffect.heal ItemEffect.self amount None.

Definition herb : Item.t :=
Item.mk "herb" "Moonleaf Herb" "A bitter leaf that closes small wounds."
  Item.potion Item.common 3 (Some [healOnSelf 3]) true.

Definition elixir : Item.t :=
Item.mk "elixir" "Twin Elixir" "Two draughts sealed in one vial."
  Item.potion Item.uncommon 25 (Some [healOnSelf 5; healOnSelf 5]) true.

Definition tonic : Item.t :=
Item.mk "tonic" "Weak Tonic" "A watery brew."
  Item.potion Item.common 5 (Some [healOnSelf 5]) true.

Definition strongTonic : Item.t :=
Item.mk "tonic" "Strong Tonic" "A thick, dark brew."
  Item.potion Item.rare 50 (Some [healOnSelf 50]) true.

Definition venom : Item.t :=
Item.mk "venom" "Mislabelled Vial" "It smells of almonds."
  Item.potion Item.common 1 (Some [healOnSelf (-100)]) true.

Definition rustyKey : Item.t :=
Item.mk "key" "Rusty Key" "It opens nothing you know of."
  Item.quest Item.common 0 None false.

Definition rat : Enemy.t :=
Enemy.mk "rat1" "Plague Rat" "A bloated rat, barely standing."
  1 1 4 (EnemyStats.mk 1 2 1) [] [herb] 10 5.

Definition ogre : Enemy.t :=
Enemy.mk "ogre1" "Marsh Ogre" "A hulking brute caked in mud."
  3 100 100 (EnemyStats.mk 10 2 8) [] [] 50 20.

Definition createAldric : Command :=
CreateCharacter "c-1" "Aldric" "A wandering sellsword." Warrior BladeOfEmber.

Definition aldric : World.t := step World.initial createAldric.

(** ** Remaining actions of the store *)

(** [Partial<Character['stats']>]: a key that the object does not carry is
    [None]. *)
Module PartialStats.
Record t := mk {
  strength : option Z;
  dexterity : option Z;
  constitution : option Z;
  intelligence : option Z;
  wisdom : option Z;
  charisma : option Z
}.
End PartialStats.

(** [{ ...character.stats, ...stats }] *)
Definition spreadStats (base : Stats.t) (stats : PartialStats.t) : Stats.t :=
Stats.mk (default (Stats.strength base) (PartialStats.strength stats))
         (default (Stats.dexterity base) (PartialStats.dexterity stats))
         (default (Stats.constitution base) (PartialStats.constitution stats))
         (default (Stats.intelligence base) (PartialStats.intelligence stats))
         (default (Stats.wisdom base) (PartialStats.wisdom stats))
         (default (Stats.charisma base) (PartialStats.charisma stats)).

(** [{ ...character, stats: st }] *)
Definition characterWithStats (c : Character.t) (st : Stats.t) : Character.t :=
Character.mk (Character.id c) (Character.name c) (Character.description c)
  (Character.class c) (Character.relic c) (Character.level c)
  (Character.experience c) (Character.health c) (Character.maxHealth c)
  (Character.mana c) (Character.maxMana c) (Character.inventory c) st
  (Character.abilities c) (Character.gold c).

Definition updateCharacterStats (stats : PartialStats.t) : Store unit :=
s ← get;
match GameState.character s with
| None => mret tt
| Some character =>
    set (GameState.with_character
           (Some (characterWithStats character
                    (spreadStats (Character.stats character) stats))))
end.

(** The object that [saveGame] serialises under the key [rpg_save]: six
    fields of the store; [combat] is not among them. *)
Module SavedGame.
Record t := mk {
  character : option Character.t;
  currentLocation : option Place;
  gameLog : list GameLogEntry.t;
  quests : list Quest.t;
  visitedLocations : list string;
  gameTime : Z
}.
End SavedGame.

(** [saveGame] does not write the store; its result here is the object it
    hands to [localStorage.setItem] (as JSON text, which [loadGame] parses
    back to the same data). *)
Definition saveGame : Store SavedGame.t :=
state ← get;
mret (SavedGame.mk (GameState.character state) (GameState.currentLocation state)
        (GameState.gameLog state) (GameState.quests state)
        (GameState.visitedLocations state) (GameState.gameTime state)).

(** [savedGame] is what [localStorage.getItem('rpg_save')] holds, parsed:
    [None] when there is no saved game. *)
Definition loadGame (savedGame : option SavedGame.t) : Store unit :=
match savedGame with
| None => mret tt
| Some gameData =>
    set (fun state =>
           GameState.mk (SavedGame.character gameData)
             (SavedGame.currentLocation gameData) (SavedGame.gameLog gameData)
             (SavedGame.quests gameData) (GameState.combat state)
             (SavedGame.visitedLocations gameData) (SavedGame.gameTime gameData))
end.

(** ** Further invariants and descriptions *)

(** The store that a command leaves, the callback of [Elapse] being the
    enemy turn. *)
Definition storeAfter (cmd : Command) (s : GameState.t) : GameState.t :=
match cmd with
| CreateCharacter uuid name description characterClass relic =>
    exec (createNewCharacter uuid name description characterClass relic) s
| GainExperience amount => exec (gainExperience amount) s
| AddItem item => exec (addItemToInventory item) s
| RemoveItem itemId => exec (removeItemFromInventory itemId) s
| UseItem itemId => exec (useItem itemId) s
| MoveToLocation encounter locationId => exec (moveToLocation encounter locationId) s
| StartCombat enemies => exec (startCombat enemies) s
| AttackEnemy roll enemyId abilityName => snd (attackEnemy roll enemyId abilityName s)
| EndCombat => exec endCombat s
| Elapse => exec enemyTurn s
end.

(** Visited ids are listed once and are keys that [locations] answers
    to, declared or inherited; the current location is the value found
    under a visited id. *)
Definition visitedConsistent (s : GameState.t) : Prop :=
NoDup (GameState.visitedLocations s)
/\ (forall locationId,
      locationId ∈ GameState.visitedLocations s -> is_Some (locationsAt locationId))
/\ (forall place,
      GameState.currentLocation s = Some place ->
      match place with
      | Catalogued location =>
          locations !! Location.id location = Some location
          /\ Location.id location ∈ GameState.visitedLocations s
      | Inherited key =>
          locationsAt key = Some (Inherited key)
          /\ key ∈ GameState.visitedLocations s
      end).

(** Level, maxima and mana as the store derives them from the stats. *)
Definition derivedVitals (c : Character.t) : Prop :=
1 <= Character.level c
/\ Character.maxHealth c = 20 + 5 * Stats.constitution (Character.stats c)
/\ Character.maxMana c = 10 * Stats.intelligence (Character.stats c)
/\ Character.mana c = Character.maxMana c.

Definition gainsNonNegative (cmd : Command) : Prop :=
match cmd with
| GainExperience amount => 0 <= amount
| _ => True
end.

(** [{ ...combat, playerTurn: b }] *)
Definition combatWithPlayerTurn (cb : CombatState.t) (b : bool) : CombatState.t :=
CombatState.mk (CombatState.inCombat cb) (CombatState.enemies cb) b
  (CombatState.round cb) (CombatState.combatLog cb).

(** The damage of one enemy turn. *)
Definition retaliation (enemies : list Enemy.t) : Z :=
fold_left (fun total enemy => total + enemyDamage enemy) enemies 0.

(** * Properties *)

Arguments pretty : simpl never.
Arguments String.append : simpl never.
Arguments String.concat : simpl never.
Arguments applyEffect : simpl never.
Arguments addToGameLog : simpl never.
Arguments addItemToInventory : simpl never.
Arguments removeItemFromInventory : simpl never.
Arguments gainExperience : simpl never.
Arguments useItem : simpl never.
Arguments startCombat : simpl never.
Arguments endCombat : simpl never.
Arguments enemyTurn : simpl never.
Arguments strike : simpl never.
Arguments resolve : simpl never.
Arguments attackEnemy : simpl never.
Arguments moveToLocation : simpl never.

Ltac run_store :=
  unfold exec, mbind, store_bind, mret, store_ret, get, set in *; simpl in *.

(** ** What each action does to the store *)

Lemma addToGameLog_run text type s :
  addToGameLog text type s
  = (tt, GameState.with_gameLog
           (GameState.gameLog s ++ [GameLogEntry.mk text type]) s).
Proof. reflexivity. Qed.

Lemma createNewCharacter_run uuid name description characterClass relic s :
  exists c,
    createNewCharacter uuid name description characterClass relic s
    = (tt, GameState.with_character (Some c) s)
    /\ c = Character.mk uuid name description characterClass relic 1 0
             (20 + Stats.constitution (getBaseStats characterClass) * 5)
             (20 + Stats.constitution (getBaseStats characterClass) * 5)
             (Stats.intelligence (getBaseStats characterClass) * 10)
             (Stats.intelligence (getBaseStats characterClass) * 10)
             [] (getBaseStats characterClass) [] 10.
Proof. eexists; split; reflexivity. Qed.

Lemma addItemToInventory_run item s c :
  GameState.character s = Some c ->
  addItemToInventory item s
  = (tt, GameState.with_character
           (Some (Character.with_inventory c (Character.inventory c ++ [item]))) s).
Proof. intros Hc. unfold addItemToInventory. run_store. now rewrite Hc. Qed.

Lemma removeItemFromInventory_run itemId s c :
  GameState.character s = Some c ->
  removeItemFromInventory itemId s
  = (tt, GameState.with_character
           (Some (Character.with_inventory c
                    (List.filter (fun item => negb (String.eqb (Item.id item) itemId))
                                 (Character.inventory c)))) s).
Proof. intros Hc. unfold removeItemFromInventory. run_store. now rewrite Hc. Qed.

Lemma gainExperience_run amount s c :
  GameState.character s = Some c ->
  gainExperience amount s
  = (tt, GameState.with_gameLog (GameState.gameLog s ++ [gainedEntry c amount])
           (GameState.with_character (Some (gained c amount)) s)).
Proof.
  intros Hc. unfold gainExperience, gained, gainedEntry. run_store. rewrite Hc.
  destruct (Character.experience c + amount >=? Character.level c * 100); reflexivity.
Qed.

Lemma findIndex_None {A} (p : A -> bool) xs :
  (forall x, x ∈ xs -> p x = false) -> findIndex p xs = None.
Proof.
  induction xs as [|x xs IH]; intros Hall; [reflexivity|]. simpl.
  rewrite (Hall x) by apply list_elem_of_here.
  rewrite IH; [reflexivity|]. intros y Hy. apply Hall. now apply list_elem_of_further.
Qed.

Lemma findIndex_Some {A} (p : A -> bool) xs :
  existsb p xs = true ->
  exists i x, findIndex p xs = Some i /\ xs !! i = Some x /\ p x = true.
Proof.
  induction xs as [|x xs IH]; simpl; [discriminate|].
  destruct (p x) eqn:Hp; simpl.
  - intros _. exists 0%nat, x. auto.
  - intros H. destruct (IH H) as (i & y & Hi & Hy & Hpy).
    exists (S i), y. rewrite Hi. auto.
Qed.

Lemma find_None_absent itemId (inv : list Item.t) :
  (forall item, item ∈ inv -> Item.id item <> itemId) ->
  List.find (fun i => String.eqb (Item.id i) itemId) inv = None.
Proof.
  induction inv as [|x inv IH]; intros Hall; [reflexivity|]. simpl.
  destruct (String.eqb_spec (Item.id x) itemId) as [Heq|_].
  - exfalso. apply (Hall x); [apply list_elem_of_here | exact Heq].
  - apply IH. intros y Hy. apply Hall. now apply list_elem_of_further.
Qed.

Lemma with_health_same c : Character.with_health c (Character.health c) = c.
Proof. now destruct c. Qed.

Lemma forEach_cons {A} (x : A) xs body s :
  forEach (x :: xs) body s = forEach xs body (exec (body x) s).
Proof. simpl. unfold mbind, store_bind, exec. now destruct (body x s). Qed.

Lemma applyEffect_run c item effect s :
  exec (applyEffect c item effect) s
  = match ItemEffect.type effect, ItemEffect.target effect with
    | ItemEffect.heal, ItemEffect.self =>
        GameState.with_gameLog
          (GameState.gameLog s
           ++ [GameLogEntry.mk ("You used " +:+ Item.name item +:+ " and restored "
                                +:+ pretty (ItemEffect.amount effect) +:+ " health.")
                               GameLogEntry.system])
          (GameState.with_character
             (Some (Character.with_health c
                      (Z.min (Character.health c + ItemEffect.amount effect)
                             (Character.maxHealth c)))) s)
    | _, _ => s
    end.
Proof.
  unfold applyEffect.
  destruct (ItemEffect.type effect), (ItemEffect.target effect); reflexivity.
Qed.

Lemma forEach_applyEffect c item effects : forall s h,
  GameState.character s = Some (Character.with_health c h) ->
  forEach effects (applyEffect c item) s
  = (tt, GameState.with_gameLog (GameState.gameLog s ++ healEntries item effects)
           (GameState.with_character
              (Some (Character.with_health c (healed c effects h))) s)).
Proof.
  induction effects as [|effect effects IH]; intros s h Hs.
  - destruct s; simpl in *; subst. now rewrite app_nil_r.
  - rewrite forEach_cons, applyEffect_run. unfold healEntries, healed. simpl.
    destruct (ItemEffect.type effect), (ItemEffect.target effect);
      try (now apply IH).
    rewrite (IH _ (Z.min (Character.health c + ItemEffect.amount effect)
                         (Character.maxHealth c))) by reflexivity.
    destruct s; simpl. now rewrite <- app_assoc.
Qed.

Lemma useItem_run itemId s c item :
  GameState.character s = Some c ->
  List.find (fun i => String.eqb (Item.id i) itemId) (Character.inventory c) = Some item ->
  Item.usable item = true ->
  useItem itemId s
  = (tt, GameState.with_gameLog
           (GameState.gameLog s ++ healEntries item (effectsOf item))
           (GameState.with_character
              (Some (Character.with_inventory
                       (Character.with_health c
                          (healed c (effectsOf item) (Character.health c)))
                       (List.filter (fun i => negb (String.eqb (Item.id i) itemId))
                                    (Character.inventory c)))) s)).
Proof.
  intros Hc Hfind Huse. unfold useItem, effectsOf. run_store.
  rewrite Hc, Hfind, Huse. simpl.
  destruct (Item.effects item) as [effects|]; simpl.
  - rewrite (forEach_applyEffect c item effects s (Character.health c))
      by now rewrite with_health_same.
    unfold removeItemFromInventory. run_store. now destruct s.
  - unfold removeItemFromInventory. run_store. rewrite Hc.
    rewrite with_health_same. destruct s; simpl. now rewrite app_nil_r.
Qed.

Lemma forEach_addItemToInventory drops : forall s c,
  GameState.character s = Some c ->
  forEach drops addItemToInventory s
  = (tt, GameState.with_character
           (Some (Character.with_inventory c (Character.inventory c ++ drops))) s).
Proof.
  induction drops as [|item drops IH]; intros s c Hc.
  - destruct s, c; simpl in *. rewrite app_nil_r. now subst.
  - rewrite forEach_cons. unfold exec. rewrite (addItemToInventory_run item s c Hc).
    simpl. erewrite IH by reflexivity. simpl. rewrite <- app_assoc. now destruct s.
Qed.

Lemma forEach_drops enemies : forall s c,
  GameState.character s = Some c ->
  forEach enemies (fun enemy => forEach (Enemy.drops enemy) addItemToInventory) s
  = (tt, GameState.with_character
           (Some (Character.with_inventory c
                    (Character.inventory c ++ concat (map Enemy.drops enemies)))) s).
Proof.
  induction enemies as [|enemy enemies IH]; intros s c Hc.
  - destruct s, c; simpl in *. rewrite app_nil_r. now subst.
  - rewrite forEach_cons. unfold exec.
    rewrite (forEach_addItemToInventory (Enemy.drops enemy) s c Hc).
    simpl. erewrite IH by reflexivity. simpl. rewrite <- app_assoc. now destruct s.
Qed.

(** [endCombat] leaves the character of its snapshot, richer in gold only:
    the drops and the experience written in between are overwritten. *)
Lemma endCombat_run s cb c :
  GameState.combat s = Some cb ->
  GameState.character s = Some c ->
  endCombat s
  = (tt, GameState.with_combat None
           (GameState.with_gameLog
              (GameState.gameLog s
               ++ [gainedEntry c (totalExperience (CombatState.enemies cb));
                   GameLogEntry.mk
                     ("Combat ended. You gained "
                      +:+ pretty (totalExperience (CombatState.enemies cb))
                      +:+ " experience and "
                      +:+ pretty (totalGold (CombatState.enemies cb)) +:+ " gold.")
                     GameLogEntry.combat])
              (GameState.with_character
                 (Some (Character.with_gold c
                          (Character.gold c + totalGold (CombatState.enemies cb)))) s))).
Proof.
  intros Hcb Hc. unfold endCombat. run_store. rewrite Hcb, Hc.
  rewrite (forEach_drops (CombatState.enemies cb) s c Hc).
  erewrite gainExperience_run by reflexivity.
  destruct s; simpl. rewrite <- app_assoc. reflexivity.
Qed.

Lemma endCombat_idle s :
  GameState.combat s = None \/ GameState.character s = None ->
  endCombat s = (tt, s).
Proof.
  unfold endCombat. run_store. intros [H|H]; rewrite H; [reflexivity|].
  now destruct (GameState.combat s).
Qed.

Lemma strike_run cb i e d s :
  strike cb i e d s
  = (tt, GameState.with_gameLog
           (GameState.gameLog s
            ++ [GameLogEntry.mk ("You hit " +:+ Enemy.name e +:+ " for "
                                 +:+ pretty d +:+ " damage.") GameLogEntry.combat])
           (GameState.with_combat
              (Some (CombatState.mk (CombatState.inCombat cb) (newEnemies cb i e d) false
                       (if newEnemyHealth e d <=? 0 then CombatState.round cb
                        else CombatState.round cb + 1)
                       (CombatState.combatLog cb))) s)).
Proof. reflexivity. Qed.

Lemma attackEnemy_found roll enemyId abilityName s cb c i e :
  GameState.combat s = Some cb ->
  GameState.character s = Some c ->
  findIndex (fun e => String.eqb (Enemy.id e) enemyId) (CombatState.enemies cb) = Some i ->
  CombatState.enemies cb !! i = Some e ->
  attackEnemy roll enemyId abilityName s
  = (let damage := calculateDamage roll (Stats.strength (Character.stats c))
                                   (Stats.dexterity (Character.stats c)) false in
     strike cb i e damage ;; resolve cb i e damage) s.
Proof.
  intros Hcb Hc Hi He. unfold attackEnemy. run_store. now rewrite Hcb, Hc, Hi, He.
Qed.

Lemma attackEnemy_idle roll enemyId abilityName s :
  GameState.combat s = None \/ GameState.character s = None ->
  attackEnemy roll enemyId abilityName s = (None, s).
Proof.
  unfold attackEnemy. run_store. intros [H|H]; rewrite H; [reflexivity|].
  now destruct (GameState.combat s).
Qed.

Lemma attackEnemy_unknown roll enemyId abilityName s cb :
  GameState.combat s = Some cb ->
  (forall e, e ∈ CombatState.enemies cb -> Enemy.id e <> enemyId) ->
  attackEnemy roll enemyId abilityName s = (None, s).
Proof.
  intros Hcb Hall. unfold attackEnemy. run_store. rewrite Hcb.
  destruct (GameState.character s); [|reflexivity].
  rewrite findIndex_None; [reflexivity|].
  intros e He. apply String.eqb_neq. now apply Hall.
Qed.

Lemma resolve_survives cb i e d s :
  (newEnemyHealth e d <=? 0) = false ->
  resolve cb i e d s = (Some enemyTurn, s).
Proof. intros H. unfold resolve. now rewrite H. Qed.

Lemma resolve_continues cb i e d s :
  (newEnemyHealth e d <=? 0) = true ->
  List.filter (fun e => Enemy.health e >? 0) (newEnemies cb i e d) <> [] ->
  resolve cb i e d s
  = (None,
     GameState.with_combat
       (Some (CombatState.mk (CombatState.inCombat cb)
                (List.filter (fun e => Enemy.health e >? 0) (newEnemies cb i e d))
                true (CombatState.round cb) (CombatState.combatLog cb)))
       (GameState.with_gameLog
          (GameState.gameLog s
           ++ [GameLogEntry.mk ("You defeated " +:+ Enemy.name e +:+ "!")
                               GameLogEntry.combat]) s)).
Proof.
  intros H Hne. unfold resolve. rewrite H. run_store.
  destruct (List.filter _ _) eqn:Hf; [congruence|]. reflexivity.
Qed.

Lemma resolve_victory cb i e d s :
  (newEnemyHealth e d <=? 0) = true ->
  List.filter (fun e => Enemy.health e >? 0) (newEnemies cb i e d) = [] ->
  resolve cb i e d s
  = (None,
     exec endCombat
       (GameState.with_gameLog
          (GameState.gameLog s
           ++ [GameLogEntry.mk ("You defeated " +:+ Enemy.name e +:+ "!")
                               GameLogEntry.combat]) s)).
Proof.
  intros H Hnil. unfold resolve. rewrite H. run_store.
  rewrite Hnil. simpl. now destruct (endCombat _) as [[] ?].
Qed.

Lemma newEnemyHealth_lethal e d :
  (newEnemyHealth e d <=? 0) = (Enemy.health e - d <=? 0).
Proof.
  unfold newEnemyHealth.
  destruct (Z.leb_spec (Enemy.health e - d) 0); [apply Z.leb_le|apply Z.leb_gt]; lia.
Qed.

Lemma attackEnemy_callback roll enemyId abilityName s :
  fst (attackEnemy roll enemyId abilityName s) = None
  \/ fst (attackEnemy roll enemyId abilityName s) = Some enemyTurn.
Proof.
  unfold attackEnemy. run_store.
  destruct (GameState.combat s) as [cb|]; [|now left].
  destruct (GameState.character s) as [c|]; [|now left].
  destruct (findIndex _ _) as [i|]; [|now left].
  destruct (CombatState.enemies cb !! i) as [e|]; [|now left].
  unfold resolve.
  destruct (newEnemyHealth e _ <=? 0); [|now right].
  run_store. left.
  destruct (length _ =? 0)%nat; [|reflexivity].
  now destruct (endCombat _).
Qed.

Lemma enemyTurn_idle s :
  GameState.combat s = None \/ GameState.character s = None ->
  enemyTurn s = (tt, s).
Proof.
  unfold enemyTurn. run_store. intros [H|H]; rewrite H; [reflexivity|].
  now destruct (GameState.combat s).
Qed.

(** ** Character creation *)

(** C9: for each of the four classes, [createNewCharacter] always leaves in
    the store a character of that class whose stats are the class's base
    stat table, with health = maxHealth = 20 + 5 * constitution, mana =
    maxMana = 10 * intelligence, gold 10, level 1, experience 0 and an
    empty inventory; there is no failing case, whatever the store held. *)
Theorem createNewCharacter_initial uuid name description characterClass relic s :
  exists c,
    GameState.character
      (exec (createNewCharacter uuid name description characterClass relic) s)
    = Some c
    /\ Character.id c = uuid
    /\ Character.name c = name
    /\ Character.description c = description
    /\ Character.relic c = relic
    /\ Character.class c = characterClass
    /\ Character.stats c
       = match characterClass with
         | Warrior => Stats.mk 8 5 7 3 4 5
         | Mage => Stats.mk 3 4 4 8 7 6
         | Rogue => Stats.mk 5 8 5 6 4 6
         | Cleric => Stats.mk 5 4 6 5 8 7
         end
    /\ Character.health c = Character.maxHealth c
    /\ Character.maxHealth c = 20 + 5 * Stats.constitution (Character.stats c)
    /\ Character.mana c = Character.maxMana c
    /\ Character.maxMana c = 10 * Stats.intelligence (Character.stats c)
    /\ Character.gold c = 10
    /\ Character.level c = 1
    /\ Character.experience c = 0
    /\ Character.inventory c = []
    /\ Character.abilities c = [].
Proof.
  eexists. split; [reflexivity|]. simpl.
  repeat split; lia.
Qed.

(** ** Experience and levels *)

(** C4: a character of any class at level 1 with 0 experience who gains
    150 experience is at level 2 with 50 experience, its stats grown by
    the growth of its class, maxHealth = 20 + 5 * constitution and
    maxMana = 10 * intelligence of the new stats, health and mana at these
    maxima.  For every character and amount the threshold is 100 times the
    level before the gain and at most one level is gained by a call. *)
Theorem gainExperience_levels_up :
  (forall s c,
     GameState.character s = Some c ->
     Character.level c = 1 ->
     Character.experience c = 0 ->
     exists c',
       GameState.character (exec (gainExperience 150) s) = Some c'
       /\ Character.level c' = 2
       /\ Character.experience c' = 50
       /\ Character.stats c'
          = (let st := Character.stats c in
             match Character.class c with
             | Warrior =>
                 Stats.mk (Stats.strength st + 2) (Stats.dexterity st)
                   (Stats.constitution st + 1) (Stats.intelligence st)
                   (Stats.wisdom st) (Stats.charisma st)
             | Mage =>
                 Stats.mk (Stats.strength st) (Stats.dexterity st)
                   (Stats.constitution st) (Stats.intelligence st + 2)
                   (Stats.wisdom st + 1) (Stats.charisma st)
             | Rogue =>
                 Stats.mk (Stats.strength st) (Stats.dexterity st + 2)
                   (Stats.constitution st) (Stats.intelligence st)
                   (Stats.wisdom st) (Stats.charisma st + 1)
             | Cleric =>
                 Stats.mk (Stats.strength st) (Stats.dexterity st)
                   (Stats.constitution st + 1) (Stats.intelligence st)
                   (Stats.wisdom st + 2) (Stats.charisma st)
             end)
       /\ Character.maxHealth c' = 20 + 5 * Stats.constitution (Character.stats c')
       /\ Character.maxMana c' = 10 * Stats.intelligence (Character.stats c')
       /\ Character.health c' = Character.maxHealth c'
       /\ Character.mana c' = Character.maxMana c')
  /\ (forall amount s c,
        GameState.character s = Some c ->
        exists c',
          GameState.character (exec (gainExperience amount) s) = Some c'
          /\ if Character.level c * 100 <=? Character.experience c + amount
             then Character.level c' = Character.level c + 1
                  /\ Character.experience c'
                     = Character.experience c + amount - Character.level c * 100
             else Character.level c' = Character.level c
                  /\ Character.experience c' = Character.experience c + amount).
Proof.
  split.
  - intros s c Hc Hl He. unfold exec. rewrite (gainExperience_run 150 s c Hc).
    simpl. eexists; split; [reflexivity|]. unfold gained. rewrite Hl, He. simpl.
    repeat split; lia.
  - intros amount s c Hc. unfold exec. rewrite (gainExperience_run amount s c Hc).
    simpl. eexists; split; [reflexivity|]. unfold gained.
    rewrite Z.geb_leb. destruct (_ <=? _); simpl; auto.
Qed.

Lemma gainExperience_levels_up_witness :
  GameState.character (World.store aldric)
  = Some (Character.mk "c-1" "Aldric" "A wandering sellsword." Warrior BladeOfEmber
            1 0 55 55 30 30 [] (Stats.mk 8 5 7 3 4 5) [] 10)
  /\ (exists c',
        GameState.character (exec (gainExperience 150) (World.store aldric)) = Some c'
        /\ Character.level c' = 2 /\ Character.experience c' = 50
        /\ Character.stats c' = Stats.mk 10 5 8 3 4 5
        /\ Character.health c' = 60 /\ Character.maxHealth c' = 60
        /\ Character.mana c' = 30 /\ Character.maxMana c' = 30)
  /\ (exists c',
        GameState.character (exec (gainExperience 500) (World.store aldric)) = Some c'
        /\ Character.level c' = 2 /\ Character.experience c' = 400).
Proof.
  split; [reflexivity|]. split.
  - destruct (proj1 gainExperience_levels_up (World.store aldric) _
                eq_refl eq_refl eq_refl)
      as (c' & Hc' & Hl & He & Hs & Hmh & Hmm & Hh & Hm).
    exists c'. rewrite Hh, Hm, Hmh, Hmm, Hs. repeat split; assumption || reflexivity.
  - destruct (proj2 gainExperience_levels_up 500 (World.store aldric) _ eq_refl)
      as (c' & Hc' & Hl & He).
    exists c'. repeat split; assumption.
Defined.

(** ** Invalid targets *)

Lemma moveToLocation_inherited encounter key s :
  locations !! key = None ->
  isInherited key = true ->
  exec (moveToLocation encounter key) s
  = GameState.mk (GameState.character s) (Some (Inherited key))
      (GameState.gameLog s
       ++ [GameLogEntry.mk ("You have moved to " +:+ placeName (Inherited key) +:+ ".")
                           GameLogEntry.narrative])
      (GameState.quests s) (GameState.combat s)
      (if existsb (String.eqb key) (GameState.visitedLocations s)
       then GameState.visitedLocations s
       else GameState.visitedLocations s ++ [key])
      (GameState.gameTime s).
Proof.
  intros Hown Hinherited. unfold moveToLocation, locationsAt, exec.
  rewrite Hown, Hinherited. run_store. now destruct s.
Qed.

(** C7 (what the code does): an action invoked on an invalid target
    returns normally and leaves the whole store as it was in all cases but
    one.  [useItem] with an id absent from the inventory or whose first
    match is not usable (or without a character), [attackEnemy] without
    combat, without character or with an id absent from the roster (no
    callback is scheduled either), [endCombat] without combat or
    character, [gainExperience] without a character, and [moveToLocation]
    with an id that [locations] does not answer to, change nothing.  But
    [moveToLocation] with an id that the catalog does not declare and that
    the object inherits from [Object.prototype] (such as [constructor]) is
    not a no-op: it passes the guard, makes the inherited member the
    current location, records the id as visited and logs the move. *)
Theorem invalid_target_outcome :
  (forall itemId s,
     GameState.character s = None -> useItem itemId s = (tt, s))
  /\ (forall itemId s c,
        GameState.character s = Some c ->
        (forall item, item ∈ Character.inventory c -> Item.id item <> itemId) ->
        useItem itemId s = (tt, s))
  /\ (forall itemId s c item,
        GameState.character s = Some c ->
        List.find (fun i => String.eqb (Item.id i) itemId) (Character.inventory c)
        = Some item ->
        Item.usable item = false ->
        useItem itemId s = (tt, s))
  /\ (forall encounter locationId s,
        locations !! locationId = None ->
        isInherited locationId = false ->
        moveToLocation encounter locationId s = (tt, s))
  /\ (forall encounter key s,
        locations !! key = None ->
        isInherited key = true ->
        let s' := exec (moveToLocation encounter key) s in
        s' <> s
        /\ GameState.currentLocation s' = Some (Inherited key)
        /\ key ∈ GameState.visitedLocations s'
        /\ GameState.gameLog s'
           = GameState.gameLog s
             ++ [GameLogEntry.mk
                   ("You have moved to " +:+ placeName (Inherited key) +:+ ".")
                   GameLogEntry.narrative])
  /\ (forall roll enemyId abilityName s,
        GameState.combat s = None \/ GameState.character s = None ->
        attackEnemy roll enemyId abilityName s = (None, s))
  /\ (forall roll enemyId abilityName s cb,
        GameState.combat s = Some cb ->
        (forall e, e ∈ CombatState.enemies cb -> Enemy.id e <> enemyId) ->
        attackEnemy roll enemyId abilityName s = (None, s))
  /\ (forall s,
        GameState.combat s = None \/ GameState.character s = None ->
        endCombat s = (tt, s))
  /\ (forall amount s,
        GameState.character s = None -> gainExperience amount s = (tt, s)).
Proof.
  repeat apply conj.
  - intros itemId s Hc. unfold useItem. run_store. now rewrite Hc.
  - intros itemId s c Hc Habsent. unfold useItem. run_store.
    now rewrite Hc, (find_None_absent itemId _ Habsent).
  - intros itemId s c item Hc Hfind Huse. unfold useItem. run_store.
    now rewrite Hc, Hfind, Huse.
  - intros encounter locationId s Hown Hinherited.
    unfold moveToLocation, locationsAt. now rewrite Hown, Hinherited.
  - intros encounter key s Hown Hinherited s'. subst s'.
    rewrite (moveToLocation_inherited encounter key s Hown Hinherited). simpl.
    split; [|split; [reflexivity|split; [|reflexivity]]].
    + intros Heq. apply (f_equal GameState.gameLog) in Heq. simpl in Heq.
      apply (f_equal length) in Heq. rewrite length_app in Heq. simpl in Heq. lia.
    + destruct (existsb (String.eqb key) (GameState.visitedLocations s)) eqn:Hseen.
      * apply existsb_exists in Hseen as (y & Hin & ->%String.eqb_eq).
        now apply list_elem_of_In.
      * apply elem_of_app. right. now apply list_elem_of_singleton.
  - apply attackEnemy_idle.
  - apply attackEnemy_unknown.
  - apply endCombat_idle.
  - intros amount s Hc. unfold gainExperience. run_store. now rewrite Hc.
Qed.

Lemma invalid_target_outcome_witness :
  let s := World.store (run aldric [AddItem rustyKey; StartCombat [rat]]) in
  let s' := exec (moveToLocation false "constructor") s in
  useItem "herb" GameState.initial = (tt, GameState.initial)
  /\ useItem "ghost" s = (tt, s)
  /\ useItem "key" s = (tt, s)
  /\ moveToLocation true "atlantis" s = (tt, s)
  /\ (s' <> s
      /\ GameState.currentLocation s' = Some (Inherited "constructor")
      /\ GameState.visitedLocations s' = ["constructor"]
      /\ GameState.gameLog s'
         = GameState.gameLog s
           ++ [GameLogEntry.mk "You have moved to Object." GameLogEntry.narrative])
  /\ attackEnemy 3 "rat1" "Basic Attack" (World.store aldric) = (None, World.store aldric)
  /\ attackEnemy 3 "wolf1" "Basic Attack" s = (None, s)
  /\ endCombat (World.store aldric) = (tt, World.store aldric)
  /\ gainExperience 10 GameState.initial = (tt, GameState.initial).
Proof.
  intros s s'.
  destruct invalid_target_outcome as (H1 & H2 & H3 & H4 & H4' & H5 & H6 & H7 & H8).
  repeat apply conj.
  - apply H1. reflexivity.
  - eapply H2; [reflexivity|].
    intros item ->%list_elem_of_singleton. discriminate.
  - eapply H3; reflexivity.
  - apply H4; vm_compute; reflexivity.
  - apply (H4' false "constructor" s); vm_compute; reflexivity.
  - apply (H4' false "constructor" s); vm_compute; reflexivity.
  - reflexivity.
  - destruct (H4' false "constructor" s) as (_ & _ & _ & Hlog);
      [vm_compute; reflexivity | vm_compute; reflexivity |].
    exact Hlog.
  - apply H5. left. reflexivity.
  - eapply H6; [reflexivity|].
    intros e ->%list_elem_of_singleton. discriminate.
  - apply H7. left. reflexivity.
  - apply H8. reflexivity.
Defined.

(** ** The deferred enemy turn *)

(** C6: the callback that [attackEnemy] schedules is [enemyTurn], the same
    function of the store it runs on whatever the store was when it was
    scheduled; run on a store whose combat or character has been cleared,
    it returns that store unchanged (character, combat and log included). *)
Theorem enemyTurn_revalidates roll enemyId abilityName s s1 callback :
  attackEnemy roll enemyId abilityName s = (Some callback, s1) ->
  callback = enemyTurn
  /\ forall later,
       GameState.combat later = None \/ GameState.character later = None ->
       callback later = (tt, later).
Proof.
  intros Hrun.
  assert (callback = enemyTurn) as ->.
  { destruct (attackEnemy_callback roll enemyId abilityName s) as [H|H];
      rewrite Hrun in H; simpl in H; congruence. }
  split; [reflexivity|]. apply enemyTurn_idle.
Qed.

Lemma enemyTurn_revalidates_witness :
  let s := World.store (run aldric [StartCombat [ogre]]) in
  let r := attackEnemy 0 "ogre1" "Basic Attack" s in
  let later := exec endCombat (snd r) in
  r = (Some enemyTurn, snd r)
  /\ GameState.combat later = None
  /\ enemyTurn later = (tt, later).
Proof.
  intros s r later.
  assert (r = (Some enemyTurn, snd r)) as Hr by (vm_compute; reflexivity).
  split; [exact Hr|]. split; [vm_compute; reflexivity|].
  destruct (enemyTurn_revalidates 0 "ogre1" "Basic Attack" s (snd r) enemyTurn Hr)
    as [_ Hnoop].
  apply Hnoop. left. vm_compute. reflexivity.
Defined.

(** ** Turn order and rounds *)

(** C5: when [attackEnemy] finds its target in the roster of an active
    combat with a character, the store it first writes has
    [playerTurn = false] and a round that is unchanged if the blow brings
    the target's health to 0 and one more otherwise; a blow that does not
    kill leaves that store and schedules the enemy turn; a blow that kills
    while another enemy of the roster is alive ends with
    [playerTurn = true], the round unchanged and the dead removed. *)
Theorem attackEnemy_turn_and_round roll enemyId abilityName s cb c :
  GameState.combat s = Some cb ->
  GameState.character s = Some c ->
  (exists target, target ∈ CombatState.enemies cb /\ Enemy.id target = enemyId) ->
  exists i e,
    findIndex (fun e => String.eqb (Enemy.id e) enemyId) (CombatState.enemies cb) = Some i
    /\ CombatState.enemies cb !! i = Some e
    /\ Enemy.id e = enemyId
    /\ let damage := calculateDamage roll (Stats.strength (Character.stats c))
                                     (Stats.dexterity (Character.stats c)) false in
       let lethal := Enemy.health e - damage <=? 0 in
       attackEnemy roll enemyId abilityName s
       = (strike cb i e damage ;; resolve cb i e damage) s
       /\ (exists mid,
             GameState.combat (exec (strike cb i e damage) s) = Some mid
             /\ CombatState.playerTurn mid = false
             /\ CombatState.round mid
                = if lethal then CombatState.round cb else CombatState.round cb + 1)
       /\ (lethal = false ->
           attackEnemy roll enemyId abilityName s
           = (Some enemyTurn, exec (strike cb i e damage) s))
       /\ (lethal = true ->
           (exists j other,
              j <> i /\ CombatState.enemies cb !! j = Some other
              /\ 0 < Enemy.health other) ->
           exists after,
             GameState.combat (snd (attackEnemy roll enemyId abilityName s)) = Some after
             /\ CombatState.playerTurn after = true
             /\ CombatState.round after = CombatState.round cb
             /\ CombatState.enemies after
                = List.filter (fun e => Enemy.health e >? 0)
                              (newEnemies cb i e damage)).
Proof.
  intros Hcb Hc (target & Hin & Hid).
  destruct (findIndex_Some (fun e => String.eqb (Enemy.id e) enemyId)
              (CombatState.enemies cb)) as (i & e & Hi & He & Hp).
  { apply existsb_exists. exists target. split.
    - now apply list_elem_of_In.
    - now apply String.eqb_eq. }
  exists i, e. apply String.eqb_eq in Hp.
  repeat (split; [assumption|]).
  intros damage lethal.
  pose proof (attackEnemy_found roll enemyId abilityName s cb c i e Hcb Hc Hi He) as Hrun.
  fold damage in Hrun.
  split; [exact Hrun|]. split; [|split].
  - eexists. unfold exec. rewrite strike_run. simpl. split; [reflexivity|].
    split; [reflexivity|]. now rewrite newEnemyHealth_lethal.
  - intros Hl. rewrite Hrun. unfold mbind, store_bind. rewrite strike_run.
    rewrite resolve_survives by now rewrite newEnemyHealth_lethal.
    unfold exec. now rewrite strike_run.
  - intros Hl (j & other & Hj & Hother & Halive).
    rewrite Hrun. unfold mbind, store_bind. rewrite strike_run.
    rewrite resolve_continues.
    + simpl. eexists. split; [reflexivity|]. auto.
    + now rewrite newEnemyHealth_lethal.
    + intros Hnil.
      assert (other ∈ List.filter (fun e => Enemy.health e >? 0)
                                  (newEnemies cb i e damage)) as Hmem.
      { apply list_elem_of_In, filter_In. split.
        - apply list_elem_of_In, (list_elem_of_lookup_2 _ j).
          unfold newEnemies. now rewrite list_lookup_insert_ne by auto.
        - apply Z.gtb_lt. lia. }
      rewrite Hnil in Hmem. now apply not_elem_of_nil in Hmem.
Qed.

Lemma attackEnemy_turn_and_round_witness :
  let s := World.store (run aldric [StartCombat [rat; ogre]]) in
  (exists target,
     target ∈ [rat; ogre] /\ Enemy.id target = "rat1")
  /\ exists after,
       GameState.combat (snd (attackEnemy 0 "rat1" "Basic Attack" s)) = Some after
       /\ CombatState.playerTurn after = true
       /\ CombatState.round after = 1
       /\ CombatState.enemies after = [ogre].
Proof.
  intros s.
  assert (exists target, target ∈ [rat; ogre] /\ Enemy.id target = "rat1") as Htarget.
  { exists rat. split; [apply list_elem_of_here | reflexivity]. }
  split; [exact Htarget|].
  destruct (attackEnemy_turn_and_round 0 "rat1" "Basic Attack" s _ _
              eq_refl eq_refl Htarget)
    as (i & e & Hi & He & _ & _ & _ & _ & Hkill).
  vm_compute in Hi. injection Hi as <-.
  vm_compute in He. injection He as <-.
  destruct Hkill as (after & Hafter & Hturn & Hround & Hroster).
  - reflexivity.
  - exists 1%nat, ogre. repeat split. discriminate.
  - exists after. repeat split; assumption.
Defined.

(** ** Victory and rewards *)

(** C1 (what the code does): attacking the only enemy of the roster, whose
    health is 1, with a blow of at least 1 damage ends the combat (the
    combat object is cleared, so the enemy is gone from the roster) and
    adds the enemy's gold to the character; the character's experience,
    level and inventory are those from before the attack, although two
    log entries announce the experience: [endCombat] writes back the
    character it read before the drops and the experience were granted. *)
Theorem attackEnemy_last_enemy_rewards roll abilityName s cb c enemy :
  GameState.combat s = Some cb ->
  GameState.character s = Some c ->
  CombatState.enemies cb = [enemy] ->
  Enemy.health enemy = 1 ->
  0 <= roll ->
  1 <= Stats.strength (Character.stats c) ->
  let s' := snd (attackEnemy roll (Enemy.id enemy) abilityName s) in
  GameState.combat s' = None
  /\ fst (attackEnemy roll (Enemy.id enemy) abilityName s) = None
  /\ exists c',
       GameState.character s' = Some c'
       /\ Character.gold c' = Character.gold c + Enemy.gold enemy
       /\ Character.experience c' = Character.experience c
       /\ Character.level c' = Character.level c
       /\ Character.inventory c' = Character.inventory c.
Proof.
  intros Hcb Hc Hroster Hhealth Hroll Hstr.
  set (damage := calculateDamage roll (Stats.strength (Character.stats c))
                                 (Stats.dexterity (Character.stats c)) false).
  assert (1 <= damage) as Hdamage.
  { unfold damage, calculateDamage.
    assert (1 <= 3 * Stats.strength (Character.stats c) / 2)
      by (apply Z.div_le_lower_bound; lia).
    lia. }
  assert (attackEnemy roll (Enemy.id enemy) abilityName s
          = (strike cb 0%nat enemy damage ;; resolve cb 0%nat enemy damage) s) as Hrun.
  { apply attackEnemy_found; try assumption; rewrite Hroster; simpl.
    - now rewrite String.eqb_refl.
    - reflexivity. }
  assert (newEnemyHealth enemy damage = 0) as Hzero
    by (unfold newEnemyHealth; lia).
  intros s'. subst s'. rewrite Hrun. unfold mbind, store_bind. rewrite strike_run.
  rewrite resolve_victory.
  - unfold exec. erewrite endCombat_run; [|reflexivity|exact Hc]. simpl.
    split; [reflexivity|]. split; [reflexivity|].
    eexists. split; [reflexivity|]. simpl.
    unfold newEnemies. rewrite Hroster. simpl. unfold totalGold. simpl.
    repeat split; lia.
  - now rewrite Hzero.
  - unfold newEnemies. rewrite Hroster, Hzero. reflexivity.
Qed.

Lemma attackEnemy_last_enemy_rewards_witness :
  let s := World.store (run aldric [StartCombat [rat]]) in
  let s' := snd (attackEnemy 0 "rat1" "Basic Attack" s) in
  Enemy.experience rat = 10
  /\ Enemy.drops rat = [herb]
  /\ GameState.combat s' = None
  /\ exists c',
       GameState.character s' = Some c'
       /\ Character.gold c' = 15
       /\ Character.experience c' = 0
       /\ Character.level c' = 1
       /\ Character.inventory c' = [].
Proof.
  intros s s'. split; [reflexivity|]. split; [reflexivity|].
  destruct (attackEnemy_last_enemy_rewards 0 "Basic Attack" s _ _ rat
              eq_refl eq_refl eq_refl eq_refl)
    as (Hcombat & _ & c' & Hc' & Hgold & Hexp & Hlevel & Hinv).
  - lia.
  - simpl. lia.
  - split; [exact Hcombat|]. exists c'. repeat split; assumption.
Defined.

(** ** Using items *)

Lemma find_first itemId (before rest : list Item.t) item :
  (forall i, i ∈ before -> Item.id i <> itemId) ->
  Item.id item = itemId ->
  List.find (fun i => String.eqb (Item.id i) itemId) (before ++ item :: rest)
  = Some item.
Proof.
  intros Hbefore Hid. induction before as [|x before IH]; simpl.
  - now rewrite Hid, String.eqb_refl.
  - destruct (String.eqb_spec (Item.id x) itemId) as [Heq|_].
    + exfalso. apply (Hbefore x); [apply list_elem_of_here | exact Heq].
    + apply IH. intros i Hi. apply Hbefore. now apply list_elem_of_further.
Qed.

(** C2 (what the code does): using a usable item of the inventory whose
    effects are two heals on self writes each heal from the health the
    character had when [useItem] started, clamped at maxHealth, so the
    health left in the store is that of the second heal alone; one log
    entry is emitted per heal and the item is then removed. *)
Theorem useItem_two_heals itemId s c item a1 a2 :
  GameState.character s = Some c ->
  List.find (fun i => String.eqb (Item.id i) itemId) (Character.inventory c) = Some item ->
  Item.usable item = true ->
  Item.effects item = Some [healOnSelf a1; healOnSelf a2] ->
  exists c',
    GameState.character (exec (useItem itemId) s) = Some c'
    /\ Character.health c' = Z.min (Character.health c + a2) (Character.maxHealth c)
    /\ Character.maxHealth c' = Character.maxHealth c
    /\ length (GameState.gameLog (exec (useItem itemId) s))
       = (length (GameState.gameLog s) + 2)%nat
    /\ forall i, i ∈ Character.inventory c' -> Item.id i <> itemId.
Proof.
  intros Hc Hfind Huse Heff. unfold exec.
  rewrite (useItem_run itemId s c item Hc Hfind Huse).
  unfold effectsOf. rewrite Heff. simpl.
  eexists. split; [reflexivity|]. simpl.
  repeat split.
  - rewrite length_app. reflexivity.
  - intros i [_ Hneq]%list_elem_of_In%filter_In.
    apply negb_true_iff, String.eqb_neq in Hneq. exact Hneq.
Qed.

Lemma useItem_two_heals_witness :
  let s := World.store (run aldric [StartCombat [ogre];
                                    AttackEnemy 0 "ogre1" "Basic Attack";
                                    Elapse; AddItem elixir]) in
  exists c c',
    GameState.character s = Some c
    /\ Character.health c = 43 /\ Character.maxHealth c = 55
    /\ accumulatedHeal c (effectsOf elixir) (Character.health c) = 53
    /\ GameState.character (exec (useItem "elixir") s) = Some c'
    /\ Character.health c' = 48
    /\ Character.inventory c' = [].
Proof.
  intros s.
  destruct (useItem_two_heals "elixir" s _ elixir 5 5 eq_refl eq_refl eq_refl eq_refl)
    as (c' & Hc' & Hhealth & _).
  eexists _, c'. split; [reflexivity|].
  repeat split; try exact Hc'; try exact Hhealth.
  assert (GameState.character (exec (useItem "elixir") s) = Some c') as Hrun
    by exact Hc'.
  vm_compute in Hrun. injection Hrun as <-. reflexivity.
Defined.

(** C10: when the inventory holds two or more items with the id given to
    [useItem] and the first of them is usable, the health written and the
    log entries are those of the effects of that first item, and no item
    with that id is left in the inventory: every duplicate is removed
    (at least two items go), the other items stay in order. *)
Theorem useItem_removes_duplicates itemId s c (before : list Item.t) item rest :
  GameState.character s = Some c ->
  Character.inventory c = (before ++ item :: rest)%list ->
  (forall i, i ∈ before -> Item.id i <> itemId) ->
  Item.id item = itemId ->
  Item.usable item = true ->
  (exists other, other ∈ rest /\ Item.id other = itemId) ->
  exists c',
    GameState.character (exec (useItem itemId) s) = Some c'
    /\ Character.health c' = healed c (effectsOf item) (Character.health c)
    /\ GameState.gameLog (exec (useItem itemId) s)
       = GameState.gameLog s ++ healEntries item (effectsOf item)
    /\ Character.inventory c'
       = List.filter (fun i => negb (String.eqb (Item.id i) itemId))
                     (Character.inventory c)
    /\ (forall i, i ∈ Character.inventory c' -> Item.id i <> itemId)
    /\ (forall i, i ∈ Character.inventory c -> Item.id i <> itemId ->
                  i ∈ Character.inventory c')
    /\ (length (Character.inventory c') + 2 <= length (Character.inventory c))%nat.
Proof.
  intros Hc Hinv Hbefore Hid Huse (other & Hother & Hoid).
  assert (List.find (fun i => String.eqb (Item.id i) itemId) (Character.inventory c)
          = Some item) as Hfind by (rewrite Hinv; now apply find_first).
  unfold exec. rewrite (useItem_run itemId s c item Hc Hfind Huse). simpl.
  eexists. split; [reflexivity|]. simpl.
  repeat split.
  - intros i [_ Hneq]%list_elem_of_In%filter_In.
    now apply negb_true_iff, String.eqb_neq in Hneq.
  - intros i Hi Hneq. apply list_elem_of_In, filter_In. split.
    + now apply list_elem_of_In.
    + now apply negb_true_iff, String.eqb_neq.
  - apply list_elem_of_split in Hother as (r1 & r2 & ->).
    rewrite Hinv, !List.filter_app. simpl. rewrite !List.filter_app. simpl.
    rewrite Hid, Hoid, String.eqb_refl. simpl.
    rewrite !length_app. simpl. rewrite !length_app. simpl.
    pose proof (List.filter_length_le
                  (fun i => negb (String.eqb (Item.id i) itemId)) before).
    pose proof (List.filter_length_le
                  (fun i => negb (String.eqb (Item.id i) itemId)) r1).
    pose proof (List.filter_length_le
                  (fun i => negb (String.eqb (Item.id i) itemId)) r2).
    lia.
Qed.

Lemma useItem_removes_duplicates_witness :
  let s := World.store (run aldric [StartCombat [ogre];
                                    AttackEnemy 0 "ogre1" "Basic Attack";
                                    Elapse; AddItem herb; AddItem tonic;
                                    AddItem rustyKey; AddItem strongTonic]) in
  exists c c',
    GameState.character s = Some c
    /\ Character.health c = 43
    /\ Character.inventory c = [herb; tonic; rustyKey; strongTonic]
    /\ GameState.character (exec (useItem "tonic") s) = Some c'
    /\ Character.health c' = 48
    /\ Character.inventory c' = [herb; rustyKey].
Proof.
  intros s.
  destruct (useItem_removes_duplicates "tonic" s _ [herb] tonic [rustyKey; strongTonic]
              eq_refl eq_refl)
    as (c' & Hc' & Hhealth & _ & Hinv & _).
  - intros i ->%list_elem_of_singleton. discriminate.
  - reflexivity.
  - reflexivity.
  - exists strongTonic. split; [|reflexivity].
    apply list_elem_of_further, list_elem_of_here.
  - eexists _, c'. split; [reflexivity|].
    repeat split; try exact Hc'; try exact Hhealth; exact Hinv.
Defined.

(** ** How each action moves the character and the combat *)

Lemma useItem_cases itemId s :
  useItem itemId s = (tt, s)
  \/ exists c item,
       GameState.character s = Some c
       /\ item ∈ Character.inventory c
       /\ useItem itemId s
          = (tt, GameState.with_gameLog
                   (GameState.gameLog s ++ healEntries item (effectsOf item))
                   (GameState.with_character
                      (Some (Character.with_inventory
                               (Character.with_health c
                                  (healed c (effectsOf item) (Character.health c)))
                               (List.filter
                                  (fun i => negb (String.eqb (Item.id i) itemId))
                                  (Character.inventory c)))) s)).
Proof.
  destruct (GameState.character s) as [c|] eqn:Hc.
  - destruct (List.find (fun i => String.eqb (Item.id i) itemId)
                        (Character.inventory c)) as [item|] eqn:Hfind.
    + destruct (Item.usable item) eqn:Huse.
      * right. exists c, item. split; [reflexivity|]. split.
        -- apply find_some in Hfind as [Hin _]. now apply list_elem_of_In.
        -- now apply useItem_run.
      * left. unfold useItem. run_store. now rewrite Hc, Hfind, Huse.
    + left. unfold useItem. run_store. now rewrite Hc, Hfind.
  - left. unfold useItem. run_store. now rewrite Hc.
Qed.

Lemma enemyTurn_run s cb c :
  GameState.combat s = Some cb ->
  GameState.character s = Some c ->
  let totalDamage :=
    fold_left (fun total enemy => total + enemyDamage enemy) (CombatState.enemies cb) 0 in
  GameState.character (exec enemyTurn s)
  = Some (Character.with_health c (Z.max 0 (Character.health c - totalDamage)))
  /\ GameState.combat (exec enemyTurn s)
     = Some (CombatState.mk (CombatState.inCombat cb) (CombatState.enemies cb) true
               (CombatState.round cb) (CombatState.combatLog cb)).
Proof.
  intros Hcb Hc totalDamage. unfold enemyTurn, exec. run_store. rewrite Hcb, Hc.
  fold totalDamage.
  destruct (Z.max 0 (Character.health c - totalDamage) <=? 0); simpl; auto.
Qed.

Lemma enemyTurn_cases s :
  exec enemyTurn s = s
  \/ exists cb c,
       GameState.combat s = Some cb /\ GameState.character s = Some c.
Proof.
  destruct (GameState.combat s) as [cb|] eqn:Hcb.
  - destruct (GameState.character s) as [c|] eqn:Hc.
    + right. eauto.
    + left. unfold exec. rewrite enemyTurn_idle; auto.
  - left. unfold exec. rewrite enemyTurn_idle; auto.
Qed.

Lemma totalDamage_nonneg enemies : forall acc,
  0 <= acc ->
  0 <= fold_left (fun total enemy => total + enemyDamage enemy) enemies acc.
Proof.
  induction enemies as [|e enemies IH]; intros acc Hacc; simpl; [assumption|].
  apply IH. unfold enemyDamage. lia.
Qed.

Lemma moveToLocation_run encounter locationId s :
  GameState.character (exec (moveToLocation encounter locationId) s)
  = GameState.character s
  /\ (GameState.combat (exec (moveToLocation encounter locationId) s)
      = GameState.combat s
      \/ exists enemies,
           enemies <> []
           /\ GameState.combat (exec (moveToLocation encounter locationId) s)
              = Some (CombatState.mk true enemies true 1 [])).
Proof.
  unfold moveToLocation, exec.
  destruct (locationsAt locationId) as [location|]; [|now split; [|left]].
  run_store.
  destruct (placeEnemies location) as [[|enemy enemies]|]; simpl;
    try (now split; [|left]).
  destruct encounter; simpl; [|now split; [|left]].
  split; [reflexivity|]. right. exists (enemy :: enemies). split; [discriminate|].
  reflexivity.
Qed.

Lemma attackEnemy_cases roll enemyId abilityName s :
  attackEnemy roll enemyId abilityName s = (None, s)
  \/ exists cb c i e damage,
       GameState.combat s = Some cb
       /\ GameState.character s = Some c
       /\ CombatState.enemies cb !! i = Some e
       /\ attackEnemy roll enemyId abilityName s
          = (strike cb i e damage ;; resolve cb i e damage) s.
Proof.
  destruct (GameState.combat s) as [cb|] eqn:Hcb;
    [|left; apply attackEnemy_idle; auto].
  destruct (GameState.character s) as [c|] eqn:Hc;
    [|left; apply attackEnemy_idle; auto].
  destruct (findIndex (fun e => String.eqb (Enemy.id e) enemyId)
                      (CombatState.enemies cb)) as [i|] eqn:Hi.
  - destruct (CombatState.enemies cb !! i) as [e|] eqn:He.
    + right.
      exists cb, c, i, e,
        (calculateDamage roll (Stats.strength (Character.stats c))
                         (Stats.dexterity (Character.stats c)) false).
      repeat (split; [reflexivity || exact He|]).
      exact (attackEnemy_found roll enemyId abilityName s cb c i e Hcb Hc Hi He).
    + left. unfold attackEnemy. run_store. now rewrite Hcb, Hc, Hi, He.
  - left. unfold attackEnemy. run_store. now rewrite Hcb, Hc, Hi.
Qed.

Lemma attackEnemy_outcome roll enemyId abilityName s :
  (GameState.character (snd (attackEnemy roll enemyId abilityName s))
   = GameState.character s
   \/ exists c g,
        GameState.character s = Some c
        /\ GameState.character (snd (attackEnemy roll enemyId abilityName s))
           = Some (Character.with_gold c g))
  /\ (rosterNonEmpty s ->
      rosterNonEmpty (snd (attackEnemy roll enemyId abilityName s))).
Proof.
  destruct (attackEnemy_cases roll enemyId abilityName s)
    as [->|(cb & c & i & e & d & Hcb & Hc & He & ->)]; [now split; [left|]|].
  unfold mbind, store_bind. rewrite strike_run.
  destruct (newEnemyHealth e d <=? 0) eqn:Hlethal.
  - destruct (List.filter (fun e => Enemy.health e >? 0) (newEnemies cb i e d))
      as [|alive others] eqn:Hfilter.
    + rewrite (resolve_victory _ _ _ _ _ Hlethal Hfilter). unfold exec.
      erewrite endCombat_run; [|reflexivity|exact Hc]. simpl. split.
      * right. eauto.
      * intros _ cb' Hcb'. discriminate.
    + rewrite resolve_continues by (rewrite ?Hfilter; easy). simpl. split.
      * now left.
      * intros _ cb' [= <-] _. simpl. rewrite Hfilter. discriminate.
  - rewrite (resolve_survives _ _ _ _ _ Hlethal). simpl. split.
    + now left.
    + intros Hroster cb' [= <-] Hin. simpl in *.
      specialize (Hroster cb Hcb Hin). unfold newEnemies.
      intros Hnil. apply Hroster.
      apply (f_equal length) in Hnil. rewrite length_insert in Hnil.
      now destruct (CombatState.enemies cb).
Qed.

(** ** Roster of an active combat *)

Lemma rosterNonEmpty_same_combat s s' :
  GameState.combat s' = GameState.combat s ->
  rosterNonEmpty s -> rosterNonEmpty s'.
Proof. unfold rosterNonEmpty. intros ->. auto. Qed.

Lemma useItem_combat itemId s :
  GameState.combat (exec (useItem itemId) s) = GameState.combat s.
Proof.
  unfold exec.
  destruct (useItem_cases itemId s) as [->|(c & item & _ & _ & ->)]; reflexivity.
Qed.

Lemma gainExperience_combat amount s :
  GameState.combat (exec (gainExperience amount) s) = GameState.combat s.
Proof.
  unfold exec. destruct (GameState.character s) as [c|] eqn:Hc.
  - now rewrite (gainExperience_run amount s c Hc).
  - unfold gainExperience. run_store. now rewrite Hc.
Qed.

Lemma addItemToInventory_combat item s :
  GameState.combat (exec (addItemToInventory item) s) = GameState.combat s.
Proof.
  unfold exec, addItemToInventory. run_store.
  now destruct (GameState.character s).
Qed.

Lemma removeItemFromInventory_combat itemId s :
  GameState.combat (exec (removeItemFromInventory itemId) s) = GameState.combat s.
Proof.
  unfold exec, removeItemFromInventory. run_store.
  now destruct (GameState.character s).
Qed.

Lemma endCombat_rosterNonEmpty s :
  rosterNonEmpty s -> rosterNonEmpty (exec endCombat s).
Proof.
  intros Hroster. unfold exec.
  destruct (GameState.combat s) as [cb|] eqn:Hcb;
    [|rewrite endCombat_idle; auto].
  destruct (GameState.character s) as [c|] eqn:Hc;
    [|rewrite endCombat_idle; auto].
  rewrite (endCombat_run s cb c Hcb Hc). intros cb' Hcb'. discriminate.
Qed.

Lemma enemyTurn_rosterNonEmpty s :
  rosterNonEmpty s -> rosterNonEmpty (exec enemyTurn s).
Proof.
  intros Hroster.
  destruct (enemyTurn_cases s) as [->|(cb & c & Hcb & Hc)]; [assumption|].
  destruct (enemyTurn_run s cb c Hcb Hc) as [_ Hcombat].
  intros cb' Hcb' Hin. rewrite Hcombat in Hcb'. injection Hcb' as <-.
  simpl in *. now apply (Hroster cb).
Qed.

Lemma step_rosterNonEmpty w cmd :
  namesAnEnemy cmd ->
  rosterNonEmpty (World.store w) /\ onlyEnemyTurns w ->
  rosterNonEmpty (World.store (step w cmd)) /\ onlyEnemyTurns (step w cmd).
Proof.
  intros Hcmd [Hroster Htimers]. destruct w as [s timers].
  unfold onlyEnemyTurns in *. simpl in *.
  destruct cmd; simpl in *; try (split; [|assumption]).
  - intros cb Hcb. now apply (Hroster cb).
  - apply (rosterNonEmpty_same_combat s); [apply gainExperience_combat | assumption].
  - apply (rosterNonEmpty_same_combat s); [apply addItemToInventory_combat | assumption].
  - apply (rosterNonEmpty_same_combat s); [apply removeItemFromInventory_combat | assumption].
  - apply (rosterNonEmpty_same_combat s); [apply useItem_combat | assumption].
  - destruct (moveToLocation_run encounter locationId s)
      as [_ [Hsame|(enemies & Hne & Hcombat)]].
    + now apply (rosterNonEmpty_same_combat s).
    + intros cb Hcb _. rewrite Hcombat in Hcb. now injection Hcb as <-.
  - intros cb [= <-] _. exact Hcmd.
  - pose proof (attackEnemy_outcome roll enemyId abilityName s) as [_ Hkeep].
    pose proof (attackEnemy_callback roll enemyId abilityName s) as Hcallback.
    destruct (attackEnemy roll enemyId abilityName s) as [scheduled s'].
    simpl in *. split; [auto|].
    apply Forall_app. split; [assumption|].
    destruct Hcallback as [->| ->]; simpl; auto.
  - now apply endCombat_rosterNonEmpty.
  - destruct timers as [|callback rest]; simpl; [now split|].
    apply Forall_cons in Htimers as [-> Hrest]. split; [|assumption].
    now apply enemyTurn_rosterNonEmpty.
Qed.

(** C3 (amended): in every state reached from the initial store by
    commands of the command surface (the firing of pending enemy turns
    included) in which every [startCombat] is given a non-empty enemy
    list, a combat object with [inCombat = true] has a non-empty roster. *)
Theorem roster_non_empty_while_in_combat cmds :
  Forall namesAnEnemy cmds ->
  rosterNonEmpty (World.store (run World.initial cmds)).
Proof.
  intros Hcmds.
  enough (forall w,
             rosterNonEmpty (World.store w) /\ onlyEnemyTurns w ->
             rosterNonEmpty (World.store (run w cmds))
             /\ onlyEnemyTurns (run w cmds)) as Hrun.
  { apply Hrun. split; [intros cb Hcb; discriminate | constructor]. }
  induction Hcmds as [|cmd cmds Hcmd _ IH]; intros w Hw; [exact Hw|].
  simpl. apply IH. now apply step_rosterNonEmpty.
Qed.

Lemma roster_non_empty_while_in_combat_witness :
  Forall namesAnEnemy
    [createAldric; MoveToLocation true "forest";
     AttackEnemy 3 "wolf1" "Basic Attack"; Elapse; StartCombat [rat; ogre];
     AttackEnemy 0 "rat1" "Basic Attack"]
  /\ rosterNonEmpty
       (World.store
          (run World.initial
             [createAldric; MoveToLocation true "forest";
              AttackEnemy 3 "wolf1" "Basic Attack"; Elapse; StartCombat [rat; ogre];
              AttackEnemy 0 "rat1" "Basic Attack"])).
Proof.
  assert (Forall namesAnEnemy
            [createAldric; MoveToLocation true "forest";
             AttackEnemy 3 "wolf1" "Basic Attack"; Elapse; StartCombat [rat; ogre];
             AttackEnemy 0 "rat1" "Basic Attack"]) as Hcmds.
  { repeat constructor. discriminate. }
  split; [exact Hcmds|]. exact (roster_non_empty_while_in_combat _ Hcmds).
Defined.

(** C3 as stated fails: [startCombat] with an empty enemy list leaves an
    active combat whose roster is empty. *)
Lemma roster_empty_after_startCombat_nil :
  ~ (forall cmds, rosterNonEmpty (World.store (run World.initial cmds))).
Proof.
  intros Hall. specialize (Hall [StartCombat []]).
  now apply (Hall (CombatState.mk true [] true 1 [])).
Qed.

(** ** Health and mana within their bounds *)

Lemma sound_created uuid name description characterClass relic s :
  soundStore (exec (createNewCharacter uuid name description characterClass relic) s).
Proof.
  intros c [= <-]. unfold sound, vitals. simpl.
  destruct characterClass; simpl; repeat split; try lia; constructor.
Qed.

Lemma sound_gained c amount : sound c -> sound (gained c amount).
Proof.
  unfold sound, vitals, gained. intros ([Hh Hm] & Hcon & Hint & Hinv).
  destruct (_ >=? _); simpl; [|auto].
  destruct (Character.class c); simpl; repeat split; try lia; assumption.
Qed.

Lemma sound_with_gold c g : sound c -> sound (Character.with_gold c g).
Proof. unfold sound, vitals. simpl. auto. Qed.

Lemma sound_with_health c h :
  0 <= h <= Character.maxHealth c -> sound c -> sound (Character.with_health c h).
Proof. unfold sound, vitals. simpl. intuition. Qed.

Lemma sound_with_inventory c inv :
  Forall healsNonNegative inv -> sound c -> sound (Character.with_inventory c inv).
Proof. unfold sound, vitals. simpl. intuition. Qed.

Lemma healed_bounds c effects : forall h,
  Forall (fun effect =>
            match ItemEffect.type effect, ItemEffect.target effect with
            | ItemEffect.heal, ItemEffect.self => 0 <= ItemEffect.amount effect
            | _, _ => True
            end) effects ->
  0 <= Character.health c <= Character.maxHealth c ->
  0 <= h <= Character.maxHealth c ->
  0 <= healed c effects h <= Character.maxHealth c.
Proof.
  induction effects as [|effect effects IH]; intros h Hall Hc Hh; [exact Hh|].
  apply Forall_cons in Hall as [Heffect Hall]. unfold healed. simpl.
  apply IH; try assumption.
  destruct (ItemEffect.type effect), (ItemEffect.target effect); try assumption.
  lia.
Qed.

Lemma forall_filter {A} (P : A -> Prop) (f : A -> bool) l :
  Forall P l -> Forall P (List.filter f l).
Proof.
  intros Hall. apply Forall_forall. intros x [Hin _]%list_elem_of_In%filter_In.
  rewrite Forall_forall in Hall. now apply Hall, list_elem_of_In.
Qed.

Lemma soundStore_same_character s s' :
  GameState.character s' = GameState.character s ->
  soundStore s -> soundStore s'.
Proof. unfold soundStore. intros ->. auto. Qed.

Lemma gainExperience_sound amount s :
  soundStore s -> soundStore (exec (gainExperience amount) s).
Proof.
  intros Hs. unfold exec. destruct (GameState.character s) as [c|] eqn:Hc.
  - rewrite (gainExperience_run amount s c Hc). intros c' [= <-].
    apply sound_gained. now apply Hs.
  - unfold gainExperience. run_store. now rewrite Hc.
Qed.

Lemma addItemToInventory_sound item s :
  healsNonNegative item ->
  soundStore s -> soundStore (exec (addItemToInventory item) s).
Proof.
  intros Hitem Hs. unfold exec. destruct (GameState.character s) as [c|] eqn:Hc.
  - rewrite (addItemToInventory_run item s c Hc). intros c' [= <-].
    destruct (Hs c Hc) as (? & ? & ? & Hinv).
    apply sound_with_inventory; [|now apply Hs].
    apply Forall_app. split; [assumption|]. now constructor.
  - unfold addItemToInventory. run_store. now rewrite Hc.
Qed.

Lemma removeItemFromInventory_sound itemId s :
  soundStore s -> soundStore (exec (removeItemFromInventory itemId) s).
Proof.
  intros Hs. unfold exec. destruct (GameState.character s) as [c|] eqn:Hc.
  - rewrite (removeItemFromInventory_run itemId s c Hc). intros c' [= <-].
    destruct (Hs c Hc) as (? & ? & ? & Hinv).
    apply sound_with_inventory; [|now apply Hs]. now apply forall_filter.
  - unfold removeItemFromInventory. run_store. now rewrite Hc.
Qed.

Lemma useItem_sound itemId s :
  soundStore s -> soundStore (exec (useItem itemId) s).
Proof.
  intros Hs. unfold exec.
  destruct (useItem_cases itemId s) as [->|(c & item & Hc & Hin & ->)];
    [assumption|].
  intros c' [= <-]. pose proof (Hs c Hc) as Hsound.
  destruct Hsound as ([Hh Hm] & Hcon & Hint & Hinv).
  apply sound_with_inventory; [now apply forall_filter|].
  apply sound_with_health; [|now apply Hs].
  apply healed_bounds; try assumption.
  rewrite Forall_forall in Hinv. exact (Hinv item Hin).
Qed.

Lemma endCombat_sound s :
  soundStore s -> soundStore (exec endCombat s).
Proof.
  intros Hs. unfold exec.
  destruct (GameState.combat s) as [cb|] eqn:Hcb;
    [|rewrite endCombat_idle; auto].
  destruct (GameState.character s) as [c|] eqn:Hc;
    [|rewrite endCombat_idle; auto].
  rewrite (endCombat_run s cb c Hcb Hc). intros c' [= <-].
  apply sound_with_gold. now apply Hs.
Qed.

Lemma enemyTurn_sound s :
  soundStore s -> soundStore (exec enemyTurn s).
Proof.
  intros Hs.
  destruct (enemyTurn_cases s) as [->|(cb & c & Hcb & Hc)]; [assumption|].
  destruct (enemyTurn_run s cb c Hcb Hc) as [Hcharacter _].
  intros c' Hc'. rewrite Hcharacter in Hc'. injection Hc' as <-.
  pose proof (Hs c Hc) as Hsound. destruct Hsound as ([Hh Hm] & _).
  apply sound_with_health; [|now apply Hs].
  pose proof (totalDamage_nonneg (CombatState.enemies cb) 0 ltac:(lia)). lia.
Qed.

Lemma attackEnemy_sound roll enemyId abilityName s :
  soundStore s -> soundStore (snd (attackEnemy roll enemyId abilityName s)).
Proof.
  intros Hs.
  destruct (attackEnemy_outcome roll enemyId abilityName s)
    as [[Hsame|(c & g & Hc & Hgold)] _].
  - now apply (soundStore_same_character s).
  - intros c' Hc'. rewrite Hgold in Hc'. injection Hc' as <-.
    apply sound_with_gold. now apply Hs.
Qed.

Lemma step_sound w cmd :
  addsNoNegativeHeal cmd ->
  soundStore (World.store w) /\ onlyEnemyTurns w ->
  soundStore (World.store (step w cmd)) /\ onlyEnemyTurns (step w cmd).
Proof.
  intros Hcmd [Hs Htimers]. destruct w as [s timers].
  unfold onlyEnemyTurns in *. simpl in *.
  destruct cmd; simpl in *; try (split; [|assumption]).
  - apply sound_created.
  - now apply gainExperience_sound.
  - now apply addItemToInventory_sound.
  - now apply removeItemFromInventory_sound.
  - now apply useItem_sound.
  - apply (soundStore_same_character s); [|assumption].
    apply moveToLocation_run.
  - exact Hs.
  - pose proof (attackEnemy_sound roll enemyId abilityName s Hs) as Hkeep.
    pose proof (attackEnemy_callback roll enemyId abilityName s) as Hcallback.
    destruct (attackEnemy roll enemyId abilityName s) as [scheduled s'].
    simpl in *. split; [assumption|].
    apply Forall_app. split; [assumption|].
    destruct Hcallback as [->| ->]; simpl; auto.
  - now apply endCombat_sound.
  - destruct timers as [|callback rest]; simpl; [now split|].
    apply Forall_cons in Htimers as [-> Hrest]. split; [|assumption].
    now apply enemyTurn_sound.
Qed.

Lemma run_sound cmds : forall w,
  Forall addsNoNegativeHeal cmds ->
  soundStore (World.store w) /\ onlyEnemyTurns w ->
  soundStore (World.store (run w cmds)) /\ onlyEnemyTurns (run w cmds).
Proof.
  induction cmds as [|cmd cmds IH]; intros w Hcmds Hw; [exact Hw|].
  apply Forall_cons in Hcmds as [Hcmd Hcmds].
  simpl. apply IH; [assumption|]. now apply step_sound.
Qed.

(** C8 (amended): start from a freshly created character of any class and
    run any sequence of commands (createCharacter, gainExperience, addItem,
    removeItem, useItem, moveToLocation, startCombat, attackEnemy, the
    deferred enemy turn, endCombat) in which no item given to addItem and
    no drop of an enemy given to startCombat has a heal on self of
    negative amount (the enemies of the catalog drop nothing); after every
    command of the sequence, [0 <= health <= maxHealth] and
    [0 <= mana <= maxMana]. *)
Theorem vitals_hold_after_every_command
  uuid name description characterClass relic cmds n :
  Forall addsNoNegativeHeal cmds ->
  vitalsHold
    (World.store
       (run (step World.initial
               (CreateCharacter uuid name description characterClass relic))
            (take n cmds))).
Proof.
  intros Hcmds.
  destruct (run_sound (take n cmds)
              (step World.initial
                 (CreateCharacter uuid name description characterClass relic)))
    as [Hsound _].
  - now apply Forall_take.
  - split; [apply sound_created | constructor].
  - intros c Hc. now destruct (Hsound c Hc).
Qed.

Lemma vitals_hold_after_every_command_witness :
  Forall addsNoNegativeHeal
    [StartCombat [rat; ogre]; AttackEnemy 0 "ogre1" "Basic Attack"; Elapse;
     AddItem elixir; UseItem "elixir"; GainExperience 150; EndCombat]
  /\ vitalsHold
       (World.store
          (run aldric
             (take 5 [StartCombat [rat; ogre]; AttackEnemy 0 "ogre1" "Basic Attack";
                      Elapse; AddItem elixir; UseItem "elixir"; GainExperience 150;
                      EndCombat]))).
Proof.
  assert (Forall addsNoNegativeHeal
            [StartCombat [rat; ogre]; AttackEnemy 0 "ogre1" "Basic Attack"; Elapse;
             AddItem elixir; UseItem "elixir"; GainExperience 150; EndCombat])
    as Hcmds.
  { repeat constructor; simpl; lia. }
  split; [exact Hcmds|].
  exact (vitals_hold_after_every_command "c-1" "Aldric" "A wandering sellsword."
           Warrior BladeOfEmber _ 5%nat Hcmds).
Defined.

(** C8 as stated fails: an item whose heal on self has a negative amount
    takes health below 0 when used. *)
Lemma vitals_broken_by_negative_heal :
  ~ (forall cmds n, vitalsHold (World.store (run aldric (take n cmds)))).
Proof.
  intros Hall.
  specialize (Hall [AddItem venom; UseItem "venom"] 2%nat).
  destruct (Hall _ eq_refl) as [[Hhealth _] _].
  vm_compute in Hhealth. now apply Hhealth.
Qed.

(** * Further properties of the store *)

Arguments updateCharacterStats : simpl never.
Arguments saveGame : simpl never.
Arguments loadGame : simpl never.
Arguments startNewGame : simpl never.

(** ** Commands, one store at a time *)

Lemma step_store w cmd :
  onlyEnemyTurns w ->
  onlyEnemyTurns (step w cmd)
  /\ (World.store (step w cmd) = storeAfter cmd (World.store w)
      \/ World.store (step w cmd) = World.store w).
Proof.
  intros Htimers. destruct w as [s timers]. unfold onlyEnemyTurns in *. simpl in *.
  destruct cmd; simpl; try (split; [assumption|now left]).
  - pose proof (attackEnemy_callback roll enemyId abilityName s) as Hcallback.
    destruct (attackEnemy roll enemyId abilityName s) as [scheduled s'].
    simpl in *. split; [|now left].
    apply Forall_app. split; [assumption|].
    destruct Hcallback as [->| ->]; simpl; auto.
  - destruct timers as [|callback rest]; simpl; [split; [assumption|now right]|].
    apply Forall_cons in Htimers as [-> Hrest]. split; [assumption|now left].
Qed.

Lemma run_preserves (P : GameState.t -> Prop) (Q : Command -> Prop) :
  (forall cmd s, Q cmd -> P s -> P (storeAfter cmd s)) ->
  forall cmds w,
    Forall Q cmds ->
    onlyEnemyTurns w ->
    P (World.store w) ->
    P (World.store (run w cmds)) /\ onlyEnemyTurns (run w cmds).
Proof.
  intros Hstep cmds. induction cmds as [|cmd cmds IH]; intros w Hcmds Htimers HP;
    [now split|].
  apply Forall_cons in Hcmds as [Hcmd Hcmds]. simpl.
  destruct (step_store w cmd Htimers) as [Htimers' [Hstore|Hstore]];
    apply IH; try assumption; rewrite Hstore; auto.
Qed.

Lemma frame_refl s :
  s = GameState.mk (GameState.character s) (GameState.currentLocation s)
        (GameState.gameLog s ++ []) (GameState.quests s) (GameState.combat s)
        (GameState.visitedLocations s) (GameState.gameTime s).
Proof. destruct s; simpl. now rewrite app_nil_r. Qed.

Lemma enemyTurn_log s cb c :
  GameState.combat s = Some cb ->
  GameState.character s = Some c ->
  let health' := Z.max 0 (Character.health c - retaliation (CombatState.enemies cb)) in
  exec enemyTurn s
  = GameState.mk (Some (Character.with_health c health'))
      (GameState.currentLocation s)
      (GameState.gameLog s
       ++ GameLogEntry.mk ("Enemies attack! You take "
                           +:+ pretty (retaliation (CombatState.enemies cb))
                           +:+ " damage.") GameLogEntry.combat
          :: (if health' <=? 0
              then [GameLogEntry.mk "You have been defeated! Game over."
                                    GameLogEntry.system]
              else []))
      (GameState.quests s)
      (Some (combatWithPlayerTurn cb true))
      (GameState.visitedLocations s) (GameState.gameTime s).
Proof.
  intros Hcb Hc health'. unfold enemyTurn, exec. run_store. rewrite Hcb, Hc.
  fold (retaliation (CombatState.enemies cb)). fold health'.
  destruct (health' <=? 0); destruct s; simpl; [rewrite <- app_assoc|]; reflexivity.
Qed.

(** Every action but [moveToLocation] leaves the location, the visited
    list, the quests and the game time, and only appends to the log. *)
Lemma storeAfter_frame cmd s :
  (forall encounter locationId, cmd <> MoveToLocation encounter locationId) ->
  exists c cb entries,
    storeAfter cmd s
    = GameState.mk c (GameState.currentLocation s) (GameState.gameLog s ++ entries)
        (GameState.quests s) cb (GameState.visitedLocations s) (GameState.gameTime s).
Proof.
  intros Hcmd. destruct cmd; simpl.
  - eexists _, _, []. unfold exec. simpl. destruct s; simpl.
    now rewrite app_nil_r.
  - unfold exec. destruct (GameState.character s) as [c|] eqn:Hc.
    + rewrite (gainExperience_run amount s c Hc). destruct s. simpl.
      eexists _, _, _. reflexivity.
    + replace (gainExperience amount s) with (tt, s)
        by (unfold gainExperience; run_store; now rewrite Hc).
      eexists _, _, []. apply frame_refl.
  - unfold exec. destruct (GameState.character s) as [c|] eqn:Hc.
    + rewrite (addItemToInventory_run item s c Hc). destruct s. simpl.
      eexists _, _, []. now rewrite app_nil_r.
    + replace (addItemToInventory item s) with (tt, s)
        by (unfold addItemToInventory; run_store; now rewrite Hc).
      eexists _, _, []. apply frame_refl.
  - unfold exec. destruct (GameState.character s) as [c|] eqn:Hc.
    + rewrite (removeItemFromInventory_run itemId s c Hc). destruct s. simpl.
      eexists _, _, []. now rewrite app_nil_r.
    + replace (removeItemFromInventory itemId s) with (tt, s)
        by (unfold removeItemFromInventory; run_store; now rewrite Hc).
      eexists _, _, []. apply frame_refl.
  - unfold exec.
    destruct (useItem_cases itemId s) as [->|(c & item & _ & _ & ->)].
    + eexists _, _, []. apply frame_refl.
    + destruct s. simpl. eexists _, _, _. reflexivity.
  - now destruct (Hcmd encounter locationId).
  - destruct s. eexists _, _, _. reflexivity.
  - destruct (attackEnemy_cases roll enemyId abilityName s)
      as [->|(cb & c & i & e & d & Hcb & Hc & He & ->)].
    + eexists _, _, []. apply frame_refl.
    + unfold mbind, store_bind. rewrite strike_run.
      destruct (newEnemyHealth e d <=? 0) eqn:Hlethal.
      * destruct (List.filter (fun e => Enemy.health e >? 0) (newEnemies cb i e d))
          as [|alive others] eqn:Hfilter.
        -- rewrite (resolve_victory _ _ _ _ _ Hlethal Hfilter). unfold exec.
           erewrite endCombat_run; [|reflexivity|exact Hc]. destruct s. simpl.
           eexists _, _, _. rewrite <- !app_assoc. reflexivity.
        -- rewrite resolve_continues by (rewrite ?Hfilter; easy). destruct s. simpl.
           eexists _, _, _. rewrite <- !app_assoc. reflexivity.
      * rewrite (resolve_survives _ _ _ _ _ Hlethal). destruct s. simpl.
        eexists _, _, _. reflexivity.
  - unfold exec.
    destruct (GameState.combat s) as [cb|] eqn:Hcb;
      [|rewrite endCombat_idle by auto; eexists _, _, []; apply frame_refl].
    destruct (GameState.character s) as [c|] eqn:Hc;
      [|rewrite endCombat_idle by auto; eexists _, _, []; apply frame_refl].
    rewrite (endCombat_run s cb c Hcb Hc). destruct s. simpl.
    eexists _, _, _. reflexivity.
  - destruct (enemyTurn_cases s) as [->|(cb & c & Hcb & Hc)].
    + eexists _, _, []. apply frame_refl.
    + rewrite (enemyTurn_log s cb c Hcb Hc). eexists _, _, _. reflexivity.
Qed.

(** ** World traversal *)

Lemma locations_key_id locationId location :
  locations !! locationId = Some location -> Location.id location = locationId.
Proof.
  unfold locations. intros Hin%elem_of_list_to_map_2.
  repeat (apply elem_of_cons in Hin as [[= -> ->]|Hin]; [reflexivity|]).
  now apply not_elem_of_nil in Hin.
Qed.

Lemma existsb_eqb_elem_of (x : string) (l : list string) :
  existsb (String.eqb x) l = true <-> x ∈ l.
Proof.
  rewrite existsb_exists. split.
  - intros (y & Hin & ->%String.eqb_eq). now apply list_elem_of_In.
  - intros Hin. exists x. split; [now apply list_elem_of_In|apply String.eqb_refl].
Qed.

Lemma locationsAt_declared locationId location :
  locations !! locationId = Some location ->
  locationsAt locationId = Some (Catalogued location).
Proof. intros Hloc. unfold locationsAt. now rewrite Hloc. Qed.

Lemma locationsAt_cases locationId place :
  locationsAt locationId = Some place ->
  match place with
  | Catalogued location => locations !! locationId = Some location
  | Inherited key =>
      key = locationId /\ locations !! locationId = None
      /\ isInherited locationId = true
  end.
Proof.
  unfold locationsAt. destruct (locations !! locationId) as [location|].
  - now intros [= <-].
  - destruct (isInherited locationId) eqn:Hinherited; [|discriminate].
    now intros [= <-].
Qed.

Lemma moveToLocation_place encounter locationId place s :
  locationsAt locationId = Some place ->
  let moved :=
    GameState.mk (GameState.character s) (Some place)
      (GameState.gameLog s
       ++ [GameLogEntry.mk ("You have moved to " +:+ placeName place +:+ ".")
                           GameLogEntry.narrative])
      (GameState.quests s) (GameState.combat s)
      (if existsb (String.eqb locationId) (GameState.visitedLocations s)
       then GameState.visitedLocations s
       else GameState.visitedLocations s ++ [locationId])
      (GameState.gameTime s) in
  exec (moveToLocation encounter locationId) s
  = match placeEnemies place with
    | Some (enemy :: enemies) =>
        if encounter then exec (startCombat (enemy :: enemies)) moved else moved
    | _ => moved
    end.
Proof.
  intros Hloc moved. subst moved. unfold moveToLocation, exec. rewrite Hloc. run_store.
  destruct (placeEnemies place) as [[|enemy enemies]|]; simpl;
    try destruct encounter; destruct s; reflexivity.
Qed.

Lemma moveToLocation_found encounter locationId location s :
  locations !! locationId = Some location ->
  let moved :=
    GameState.mk (GameState.character s) (Some (Catalogued location))
      (GameState.gameLog s
       ++ [GameLogEntry.mk ("You have moved to " +:+ Location.name location +:+ ".")
                           GameLogEntry.narrative])
      (GameState.quests s) (GameState.combat s)
      (if existsb (String.eqb locationId) (GameState.visitedLocations s)
       then GameState.visitedLocations s
       else GameState.visitedLocations s ++ [locationId])
      (GameState.gameTime s) in
  exec (moveToLocation encounter locationId) s
  = match Location.enemies location with
    | Some (enemy :: enemies) =>
        if encounter then exec (startCombat (enemy :: enemies)) moved else moved
    | _ => moved
    end.
Proof.
  intros Hloc.
  exact (moveToLocation_place encounter locationId (Catalogued location) s
           (locationsAt_declared _ _ Hloc)).
Qed.

Lemma moveToLocation_unknown encounter locationId s :
  locationsAt locationId = None ->
  exec (moveToLocation encounter locationId) s = s.
Proof. intros Hloc. unfold moveToLocation, exec. now rewrite Hloc. Qed.

Lemma moveToLocation_place_fields encounter locationId place s :
  locationsAt locationId = Some place ->
  let s' := exec (moveToLocation encounter locationId) s in
  GameState.currentLocation s' = Some place
  /\ GameState.visitedLocations s'
     = (if existsb (String.eqb locationId) (GameState.visitedLocations s)
        then GameState.visitedLocations s
        else GameState.visitedLocations s ++ [locationId])
  /\ exists entries,
       GameState.gameLog s' = GameState.gameLog s ++ entries.
Proof.
  intros Hloc s'. subst s'. rewrite (moveToLocation_place _ _ _ _ Hloc).
  destruct (placeEnemies place) as [[|enemy enemies]|]; simpl;
    try destruct encounter; simpl; repeat split; eexists;
    rewrite <- ?app_assoc; reflexivity.
Qed.

Lemma moveToLocation_fields encounter locationId location s :
  locations !! locationId = Some location ->
  let s' := exec (moveToLocation encounter locationId) s in
  GameState.currentLocation s' = Some (Catalogued location)
  /\ GameState.character s' = GameState.character s
  /\ GameState.quests s' = GameState.quests s
  /\ GameState.gameTime s' = GameState.gameTime s
  /\ GameState.visitedLocations s'
     = (if existsb (String.eqb locationId) (GameState.visitedLocations s)
        then GameState.visitedLocations s
        else GameState.visitedLocations s ++ [locationId])
  /\ (exists entries,
        GameState.gameLog s'
        = GameState.gameLog s
          ++ GameLogEntry.mk ("You have moved to " +:+ Location.name location +:+ ".")
                             GameLogEntry.narrative :: entries)
  /\ GameState.combat s'
     = match Location.enemies location with
       | Some (enemy :: enemies) =>
           if encounter
           then Some (CombatState.mk true (enemy :: enemies) true 1 [])
           else GameState.combat s
       | _ => GameState.combat s
       end.
Proof.
  intros Hloc s'. subst s'. rewrite (moveToLocation_found _ _ _ _ Hloc).
  destruct (Location.enemies location) as [[|enemy enemies]|]; simpl;
    try destruct encounter; simpl; repeat split; eexists;
    rewrite <- ?app_assoc; reflexivity.
Qed.

(** X1: moving to a location of the catalog makes its catalog entry the
    current location, appends its id to the visited list unless it is
    there already, appends the "moved" entry to the log and leaves the
    character, the quests and the game time; a combat starts exactly when
    the encounter roll succeeds and the location has resident enemies, it
    then replaces any combat in progress with the resident roster at round
    1 on the player's turn, and otherwise the combat is as before. *)
Theorem moveToLocation_arrival encounter locationId location s :
  locations !! locationId = Some location ->
  let s' := exec (moveToLocation encounter locationId) s in
  GameState.currentLocation s' = Some (Catalogued location)
  /\ GameState.character s' = GameState.character s
  /\ GameState.quests s' = GameState.quests s
  /\ GameState.gameTime s' = GameState.gameTime s
  /\ GameState.visitedLocations s'
     = (if existsb (String.eqb locationId) (GameState.visitedLocations s)
        then GameState.visitedLocations s
        else GameState.visitedLocations s ++ [locationId])
  /\ (exists entries,
        GameState.gameLog s'
        = GameState.gameLog s
          ++ GameLogEntry.mk ("You have moved to " +:+ Location.name location +:+ ".")
                             GameLogEntry.narrative :: entries)
  /\ GameState.combat s'
     = match Location.enemies location with
       | Some (enemy :: enemies) =>
           if encounter
           then Some (CombatState.mk true (enemy :: enemies) true 1 [])
           else GameState.combat s
       | _ => GameState.combat s
       end.
Proof. exact (moveToLocation_fields encounter locationId location s). Qed.

Lemma moveToLocation_arrival_witness :
  let s := World.store (run aldric [MoveToLocation false "village";
                                    StartCombat [rat]]) in
  let s' := exec (moveToLocation true "crypt") s in
  locations !! "crypt" = Some
    (Location.mk "crypt" "The Forgotten Crypt"
       "A dark, underground chamber filled with ancient sarcophagi. The walls are adorned with faded murals depicting strange rituals."
       None ["ruins"] None (Some [reanimatedSkeleton]) None None)
  /\ GameState.visitedLocations s' = ["village"; "crypt"]
  /\ GameState.combat s' = Some (CombatState.mk true [reanimatedSkeleton] true 1 []).
Proof.
  intros s s'.
  assert (locations !! "crypt" = Some
            (Location.mk "crypt" "The Forgotten Crypt"
               "A dark, underground chamber filled with ancient sarcophagi. The walls are adorned with faded murals depicting strange rituals."
               None ["ruins"] None (Some [reanimatedSkeleton]) None None)) as Hloc
    by (vm_compute; reflexivity).
  split; [exact Hloc|].
  destruct (moveToLocation_arrival true "crypt" _ s Hloc)
    as (_ & _ & _ & _ & Hvisited & _ & Hcombat).
  split; [exact Hvisited | exact Hcombat].
Defined.

Lemma storeAfter_visitedConsistent cmd s :
  visitedConsistent s -> visitedConsistent (storeAfter cmd s).
Proof.
  intros Hs.
  assert ((exists encounter locationId, cmd = MoveToLocation encounter locationId)
          \/ forall encounter locationId, cmd <> MoveToLocation encounter locationId)
    as [(encounter & locationId & ->)|Hother]
    by (destruct cmd; try (right; discriminate); left; eauto).
  - simpl. destruct (locationsAt locationId) as [place|] eqn:Hloc;
      [|now rewrite moveToLocation_unknown].
    destruct (moveToLocation_place_fields encounter locationId place s Hloc)
      as (Hcurrent & Hvisited & _).
    destruct Hs as (Hnodup & Hkeys & _).
    unfold visitedConsistent. rewrite Hcurrent, Hvisited.
    assert (forall visited : list string,
               locationId ∈ visited ->
               forall place', Some place = Some place' ->
               match place' with
               | Catalogued location =>
                   locations !! Location.id location = Some location
                   /\ Location.id location ∈ visited
               | Inherited key =>
                   locationsAt key = Some (Inherited key) /\ key ∈ visited
               end) as Hplace.
    { intros visited Hin place' [= <-].
      pose proof (locationsAt_cases _ _ Hloc) as Hcases. destruct place as [l|key].
      - rewrite (locations_key_id _ _ Hcases). now split.
      - destruct Hcases as (-> & _ & _). now split. }
    destruct (existsb (String.eqb locationId) (GameState.visitedLocations s)) eqn:Hseen.
    + apply existsb_eqb_elem_of in Hseen.
      split; [assumption|]. split; [assumption|]. now apply Hplace.
    + assert (locationId ∉ GameState.visitedLocations s) as Hnew.
      { intros Hin%existsb_eqb_elem_of. congruence. }
      split; [|split].
      * apply NoDup_app. repeat split; [assumption| |apply NoDup_singleton].
        intros x Hx ->%list_elem_of_singleton. contradiction.
      * intros x [Hx| ->%list_elem_of_singleton]%elem_of_app; [now apply Hkeys|].
        now rewrite Hloc.
      * apply Hplace. apply elem_of_app. right. now apply list_elem_of_singleton.
  - destruct (storeAfter_frame cmd s Hother) as (c & cb & entries & ->).
    exact Hs.
Qed.

(** X2: in every store reached from the initial one by a sequence of
    createNewCharacter, gainExperience, addItemToInventory,
    removeItemFromInventory, useItem, moveToLocation, startCombat,
    attackEnemy, endCombat and elapsed enemy turns, no id is listed twice
    among the visited ones, every visited id is one that [locations]
    answers to (a key the catalog declares, or one inherited from
    [Object.prototype]), and the current location, if any, is the value
    found under a visited id: a catalog entry stored under its own id, or
    the inherited member of a visited key. *)
Theorem visited_locations_consistent cmds :
  visitedConsistent (World.store (run World.initial cmds)).
Proof.
  apply (run_preserves visitedConsistent (fun _ => True)).
  - intros cmd s _. apply storeAfter_visitedConsistent.
  - now apply Forall_forall.
  - constructor.
  - split; [apply NoDup_nil_2|]. split.
    + intros x Hx. now apply not_elem_of_nil in Hx.
    + intros l Hl. discriminate.
Qed.

(** X3: moving again to the location one has just moved to does not change
    the visited list, and after a move to a catalog location its id is on
    the list. *)
Theorem moveToLocation_twice_visits_once encounter1 encounter2 locationId s :
  let s1 := exec (moveToLocation encounter1 locationId) s in
  GameState.visitedLocations (exec (moveToLocation encounter2 locationId) s1)
  = GameState.visitedLocations s1
  /\ (is_Some (locations !! locationId) ->
      locationId ∈ GameState.visitedLocations s1).
Proof.
  intros s1. subst s1.
  destruct (locationsAt locationId) as [place|] eqn:Hloc.
  - destruct (moveToLocation_place_fields encounter1 locationId place s Hloc)
      as (_ & Hvisited & _).
    assert (locationId
            ∈ GameState.visitedLocations (exec (moveToLocation encounter1 locationId) s))
      as Hin.
    { rewrite Hvisited.
      destruct (existsb _ _) eqn:Hseen; [now apply existsb_eqb_elem_of|].
      apply elem_of_app. right. now apply list_elem_of_singleton. }
    split; [|auto].
    destruct (moveToLocation_place_fields encounter2 locationId place
                (exec (moveToLocation encounter1 locationId) s) Hloc)
      as (_ & -> & _).
    apply existsb_eqb_elem_of in Hin. now rewrite Hin.
  - rewrite !moveToLocation_unknown by assumption. split; [reflexivity|].
    intros [location Hown]. now rewrite (locationsAt_declared _ _ Hown) in Hloc.
Qed.

Lemma moveToLocation_twice_visits_once_witness :
  is_Some (locations !! "forest")
  /\ GameState.visitedLocations
       (exec (moveToLocation true "forest")
             (exec (moveToLocation false "forest") GameState.initial))
     = ["forest"].
Proof.
  assert (is_Some (locations !! "forest")) as Hloc by (vm_compute; eauto).
  split; [exact Hloc|].
  destruct (moveToLocation_twice_visits_once false true "forest" GameState.initial)
    as [-> _].
  vm_compute. reflexivity.
Defined.

(** ** The log *)

Lemma storeAfter_log cmd s :
  GameState.gameLog s `prefix_of` GameState.gameLog (storeAfter cmd s).
Proof.
  assert ((exists encounter locationId, cmd = MoveToLocation encounter locationId)
          \/ forall encounter locationId, cmd <> MoveToLocation encounter locationId)
    as [(encounter & locationId & ->)|Hother]
    by (destruct cmd; try (right; discriminate); left; eauto).
  - simpl. destruct (locationsAt locationId) as [place|] eqn:Hloc;
      [|now rewrite moveToLocation_unknown].
    destruct (moveToLocation_place_fields encounter locationId place s Hloc)
      as (_ & _ & (entries & ->)).
    now apply prefix_app_r.
  - destruct (storeAfter_frame cmd s Hother) as (c & cb & entries & ->). simpl.
    now apply prefix_app_r.
Qed.

Lemma run_log_prefix cmds more :
  GameState.gameLog (World.store (run World.initial cmds))
  `prefix_of` GameState.gameLog (World.store (run World.initial (cmds ++ more))).
Proof.
  unfold run. rewrite fold_left_app. fold (run World.initial cmds).
  destruct (run_preserves (fun _ => True) (fun _ => True) (fun _ _ _ _ => I)
              cmds World.initial) as [_ Htimers];
    [now apply Forall_forall | constructor | exact I |].
  fold (run (run World.initial cmds) more).
  apply (run_preserves
           (fun s => GameState.gameLog (World.store (run World.initial cmds))
                     `prefix_of` GameState.gameLog s)
           (fun _ => True)); try assumption; try reflexivity.
  - intros cmd s _ Hprefix. etransitivity; [exact Hprefix|apply storeAfter_log].
  - now apply Forall_forall.
Qed.

Lemma startNewGame_log encounter s :
  GameState.gameLog s `prefix_of` GameState.gameLog (exec (startNewGame encounter) s).
Proof.
  unfold startNewGame, exec. run_store.
  destruct (GameState.character s) as [c|]; [|reflexivity].
  pose proof (storeAfter_log (MoveToLocation encounter "village") s) as Hmove.
  simpl in Hmove. unfold exec in Hmove.
  destruct (moveToLocation encounter "village" s) as [[] s1]. simpl in *.
  etransitivity; [exact Hmove|]. now apply prefix_app_r.
Qed.

(** X4: every action of the store except [loadGame] leaves the game log it
    found as a prefix of the log it leaves.  Over the commands
    createNewCharacter, gainExperience, addItemToInventory,
    removeItemFromInventory, useItem, moveToLocation, startCombat,
    attackEnemy, endCombat and the elapsed enemy turn, the log reached
    after some commands is a prefix of the log after any further ones;
    [startNewGame] only appends too, [updateCharacterStats] and [saveGame]
    leave the log as it is.  [loadGame] is the exception: it replaces the
    log by the saved one, whatever the log was. *)
Theorem game_log_append_only :
  (forall cmds more,
     GameState.gameLog (World.store (run World.initial cmds))
     `prefix_of` GameState.gameLog (World.store (run World.initial (cmds ++ more))))
  /\ (forall encounter s,
        GameState.gameLog s
        `prefix_of` GameState.gameLog (exec (startNewGame encounter) s))
  /\ (forall stats s,
        GameState.gameLog (exec (updateCharacterStats stats) s) = GameState.gameLog s)
  /\ (forall s, GameState.gameLog (snd (saveGame s)) = GameState.gameLog s)
  /\ (forall saved s,
        GameState.gameLog (exec (loadGame (Some saved)) s) = SavedGame.gameLog saved).
Proof.
  split; [exact run_log_prefix|]. split; [exact startNewGame_log|].
  split; [|split; reflexivity].
  intros stats s. unfold updateCharacterStats, exec. run_store.
  now destruct (GameState.character s).
Qed.

(** ** What the commands leave of the character *)

Lemma storeAfter_progression cmd s :
  (forall uuid name description characterClass relic,
     cmd <> CreateCharacter uuid name description characterClass relic) ->
  (forall amount, cmd <> GainExperience amount) ->
  GameState.character (storeAfter cmd s) = GameState.character s
  \/ exists c health inventory gold,
       GameState.character s = Some c
       /\ GameState.character (storeAfter cmd s)
          = Some (Character.mk (Character.id c) (Character.name c)
                    (Character.description c) (Character.class c) (Character.relic c)
                    (Character.level c) (Character.experience c) health
                    (Character.maxHealth c) (Character.mana c) (Character.maxMana c)
                    inventory (Character.stats c) (Character.abilities c) gold).
Proof.
  intros Hcreate Hgain. destruct cmd; simpl.
  - now destruct (Hcreate uuid name description characterClass relic).
  - now destruct (Hgain amount).
  - unfold exec. destruct (GameState.character s) as [c|] eqn:Hc.
    + rewrite (addItemToInventory_run item s c Hc). right. now eexists c, _, _, _.
    + left. unfold addItemToInventory. run_store. now rewrite Hc.
  - unfold exec. destruct (GameState.character s) as [c|] eqn:Hc.
    + rewrite (removeItemFromInventory_run itemId s c Hc). right.
      now eexists c, _, _, _.
    + left. unfold removeItemFromInventory. run_store. now rewrite Hc.
  - unfold exec.
    destruct (useItem_cases itemId s) as [->|(c & item & Hc & _ & ->)]; [now left|].
    right. now eexists c, _, _, _.
  - left. apply moveToLocation_run.
  - now left.
  - destruct (attackEnemy_outcome roll enemyId abilityName s)
      as [[Hsame|(c & g & Hc & Hgold)] _]; [now left|].
    right. rewrite Hgold. now eexists c, _, _, _.
  - unfold exec.
    destruct (GameState.combat s) as [cb|] eqn:Hcb;
      [|rewrite endCombat_idle by auto; now left].
    destruct (GameState.character s) as [c|] eqn:Hc;
      [|rewrite endCombat_idle by auto; now left].
    rewrite (endCombat_run s cb c Hcb Hc). right. now eexists c, _, _, _.
  - destruct (enemyTurn_cases s) as [->|(cb & c & Hcb & Hc)]; [now left|].
    rewrite (enemyTurn_log s cb c Hcb Hc). right. now eexists c, _, _, _.
Qed.

(** X5: addItemToInventory, removeItemFromInventory, useItem,
    moveToLocation, startCombat, attackEnemy, endCombat and the elapsed
    enemy turn (the commands other than createNewCharacter and
    gainExperience) each either leave the character as it is or change
    only its health, inventory and gold: identity, class, relic, level,
    experience, maxHealth, mana, maxMana, stats and abilities are not
    touched by them.  (The actions that write those fields are
    createNewCharacter, gainExperience, updateCharacterStats and loadGame,
    none of which is covered here.) *)
Theorem commands_keep_progression cmd s :
  (forall uuid name description characterClass relic,
     cmd <> CreateCharacter uuid name description characterClass relic) ->
  (forall amount, cmd <> GainExperience amount) ->
  GameState.character (storeAfter cmd s) = GameState.character s
  \/ exists c health inventory gold,
       GameState.character s = Some c
       /\ GameState.character (storeAfter cmd s)
          = Some (Character.mk (Character.id c) (Character.name c)
                    (Character.description c) (Character.class c) (Character.relic c)
                    (Character.level c) (Character.experience c) health
                    (Character.maxHealth c) (Character.mana c) (Character.maxMana c)
                    inventory (Character.stats c) (Character.abilities c) gold).
Proof. exact (storeAfter_progression cmd s). Qed.

Lemma commands_keep_progression_witness :
  let s := World.store (run aldric [AddItem herb]) in
  exists c',
    GameState.character (exec (useItem "herb") s) = Some c'
    /\ Character.level c' = 1 /\ Character.maxHealth c' = 55
    /\ Character.stats c' = Stats.mk 8 5 7 3 4 5.
Proof.
  intros s.
  destruct (commands_keep_progression (UseItem "herb") s
              ltac:(discriminate) ltac:(discriminate)) as [Hsame|Hchanged].
  - eexists. split; [exact Hsame|]. repeat split.
  - destruct Hchanged as (c & h & inv & g & Hc & Hafter).
    injection Hc as <-. eexists. split; [exact Hafter|]. repeat split.
Defined.

Lemma storeAfter_derivedVitals cmd s :
  (forall c, GameState.character s = Some c -> derivedVitals c) ->
  forall c, GameState.character (storeAfter cmd s) = Some c -> derivedVitals c.
Proof.
  intros Hs.
  assert ((exists uuid name description characterClass relic,
              cmd = CreateCharacter uuid name description characterClass relic)
          \/ (exists amount, cmd = GainExperience amount)
          \/ ((forall uuid name description characterClass relic,
                 cmd <> CreateCharacter uuid name description characterClass relic)
              /\ (forall amount, cmd <> GainExperience amount)))
    as [(uuid & name & description & characterClass & relic & ->)
       |[(amount & ->)|[Hcreate Hgain]]].
  { destruct cmd; try (right; right; split; discriminate).
    - left. now eexists _, _, _, _, _.
    - right. left. eauto. }
  - intros c [= <-]. unfold derivedVitals. simpl. repeat split; lia.
  - simpl. unfold exec. destruct (GameState.character s) as [c0|] eqn:Hc.
    + rewrite (gainExperience_run amount s c0 Hc). intros c [= <-].
      destruct (Hs c0 eq_refl) as (Hl & Hmh & Hmm & Hm).
      unfold derivedVitals, gained. destruct (_ >=? _); simpl; repeat split; lia.
    + replace (gainExperience amount s) with (tt, s)
        by (unfold gainExperience; run_store; now rewrite Hc).
      simpl. rewrite Hc. discriminate.
  - destruct (storeAfter_progression cmd s Hcreate Hgain)
      as [->|(c0 & h & inv & g & Hc & ->)]; [exact Hs|].
    intros c [= <-]. destruct (Hs c0 Hc) as (Hl & Hmh & Hmm & Hm).
    unfold derivedVitals. simpl. auto.
Qed.

(** X6: in every store reached from the initial one by a sequence of
    createNewCharacter, gainExperience, addItemToInventory,
    removeItemFromInventory, useItem, moveToLocation, startCombat,
    attackEnemy, endCombat and elapsed enemy turns, a character has level
    at least 1, maxHealth equal to 20 + 5 * constitution, maxMana equal to
    10 * intelligence, and mana equal to maxMana (none of these commands
    spends mana).  [updateCharacterStats] and [loadGame] are not among
    these commands: the first changes the stats without recomputing the
    maxima, the second installs whatever character was saved. *)
Theorem derived_vitals_hold cmds c :
  GameState.character (World.store (run World.initial cmds)) = Some c ->
  derivedVitals c.
Proof.
  revert c.
  apply (run_preserves
           (fun s => forall c, GameState.character s = Some c -> derivedVitals c)
           (fun _ => True)).
  - intros cmd s _. apply storeAfter_derivedVitals.
  - now apply Forall_forall.
  - constructor.
  - discriminate.
Qed.

Lemma derived_vitals_hold_witness :
  exists c,
    GameState.character
      (World.store (run World.initial
                      [createAldric; GainExperience 250; StartCombat [ogre];
                       AttackEnemy 1 "ogre1" "Basic Attack"; Elapse]))
    = Some c
    /\ Character.level c = 2
    /\ derivedVitals c.
Proof.
  eexists. split; [vm_compute; reflexivity|]. split; [reflexivity|].
  apply (derived_vitals_hold
           [createAldric; GainExperience 250; StartCombat [ogre];
            AttackEnemy 1 "ogre1" "Basic Attack"; Elapse]).
  vm_compute. reflexivity.
Defined.

(** X7: when every gainExperience of a run is given a non-negative amount,
    the character's experience is never negative. *)
Theorem experience_never_negative cmds c :
  Forall gainsNonNegative cmds ->
  GameState.character (World.store (run World.initial cmds)) = Some c ->
  0 <= Character.experience c.
Proof.
  intros Hcmds. revert c.
  apply (run_preserves
           (fun s => forall c, GameState.character s = Some c ->
                               0 <= Character.experience c)
           gainsNonNegative); try assumption; [|constructor|discriminate].
  intros cmd s Hcmd Hs. cbv beta in *.
  destruct cmd;
    try (match goal with
         | |- context [storeAfter ?cmd s] =>
             destruct (storeAfter_progression cmd s
                         ltac:(discriminate) ltac:(discriminate))
               as [->|(c0 & h & inv & g & Hc & ->)]
         end;
         [exact Hs|intros c [= <-]; simpl; now apply Hs]).
  - intros c [= <-]. simpl. lia.
  - simpl in *. unfold exec. destruct (GameState.character s) as [c0|] eqn:Hc.
    + rewrite (gainExperience_run amount s c0 Hc). intros c [= <-].
      specialize (Hs c0 eq_refl). unfold gained.
      destruct (Z.geb_spec (Character.experience c0 + amount)
                           (Character.level c0 * 100)); simpl; lia.
    + replace (gainExperience amount s) with (tt, s)
        by (unfold gainExperience; run_store; now rewrite Hc).
      simpl. rewrite Hc. discriminate.
Qed.

Lemma experience_never_negative_witness :
  Forall gainsNonNegative [createAldric; GainExperience 30; GainExperience 90]
  /\ exists c,
       GameState.character
         (World.store
            (run World.initial [createAldric; GainExperience 30; GainExperience 90]))
       = Some c
       /\ Character.experience c = 20
       /\ 0 <= Character.experience c.
Proof.
  assert (Forall gainsNonNegative [createAldric; GainExperience 30; GainExperience 90])
    as Hcmds by (repeat constructor; simpl; lia).
  split; [exact Hcmds|].
  eexists. split; [vm_compute; reflexivity|]. split; [reflexivity|].
  apply (experience_never_negative _ _ Hcmds). vm_compute. reflexivity.
Defined.

(** ** Blows and enemy turns *)

Lemma findIndex_first (enemyId : string) (before rest : list Enemy.t) e :
  (forall x, x ∈ before -> Enemy.id x <> enemyId) ->
  Enemy.id e = enemyId ->
  findIndex (fun e => String.eqb (Enemy.id e) enemyId) (before ++ e :: rest)
  = Some (length before)
  /\ (before ++ e :: rest) !! length before = Some e.
Proof.
  intros Hbefore Hid. induction before as [|x before IH]; simpl.
  - now rewrite Hid, String.eqb_refl.
  - destruct (String.eqb_spec (Enemy.id x) enemyId) as [Heq|_].
    + exfalso. apply (Hbefore x); [apply list_elem_of_here | exact Heq].
    + destruct IH as [-> Hlookup].
      * intros y Hy. apply Hbefore. now apply list_elem_of_further.
      * split; [reflexivity | exact Hlookup].
Qed.

Lemma insert_middle {A} (before rest : list A) (x y : A) :
  <[length before := y]> (before ++ x :: rest) = before ++ y :: rest.
Proof. induction before as [|z before IH]; simpl; [reflexivity|]. now rewrite IH. Qed.

Lemma fold_damage_stats (l1 : list Enemy.t) : forall l2 acc,
  map Enemy.stats l1 = map Enemy.stats l2 ->
  fold_left (fun total enemy => total + enemyDamage enemy) l1 acc
  = fold_left (fun total enemy => total + enemyDamage enemy) l2 acc.
Proof.
  induction l1 as [|e1 l1 IH]; intros [|e2 l2] acc Hstats; try discriminate;
    [reflexivity|].
  simpl in *. injection Hstats as Hstat Hstats.
  assert (enemyDamage e1 = enemyDamage e2) as ->
    by (unfold enemyDamage; now rewrite Hstat).
  now apply IH.
Qed.

Lemma fold_damage_length (l : list Enemy.t) : forall acc,
  acc + Z.of_nat (length l)
  <= fold_left (fun total enemy => total + enemyDamage enemy) l acc.
Proof.
  induction l as [|e l IH]; intros acc; simpl fold_left; simpl length; [lia|].
  specialize (IH (acc + enemyDamage e)). unfold enemyDamage in *. lia.
Qed.

(** X8: [attackEnemy] never reads the turn flag: when the blow finds its
    target, two stores that differ only in [playerTurn] of the combat give
    the same store and the same scheduled callback, so a blow lands also
    while the enemy turn is pending. *)
Theorem attackEnemy_ignores_playerTurn roll enemyId abilityName s cb c b :
  GameState.combat s = Some cb ->
  GameState.character s = Some c ->
  existsb (fun e => String.eqb (Enemy.id e) enemyId) (CombatState.enemies cb) = true ->
  attackEnemy roll enemyId abilityName
    (GameState.with_combat (Some (combatWithPlayerTurn cb b)) s)
  = attackEnemy roll enemyId abilityName s.
Proof.
  intros Hcb Hc Htarget.
  destruct (findIndex_Some _ _ Htarget) as (i & e & Hi & He & _).
  rewrite (attackEnemy_found roll enemyId abilityName s cb c i e Hcb Hc Hi He).
  rewrite (attackEnemy_found roll enemyId abilityName
             (GameState.with_combat (Some (combatWithPlayerTurn cb b)) s)
             (combatWithPlayerTurn cb b) c i e eq_refl Hc Hi He).
  unfold mbind, store_bind. rewrite !strike_run. unfold resolve.
  destruct (newEnemyHealth e _ <=? 0); [|reflexivity]. run_store.
  destruct (length _ =? 0)%nat; [|reflexivity].
  unfold endCombat. run_store. reflexivity.
Qed.

Lemma attackEnemy_ignores_playerTurn_witness :
  let s := World.store (run aldric [StartCombat [ogre];
                                    AttackEnemy 0 "ogre1" "Basic Attack"]) in
  (exists cb, GameState.combat s = Some cb /\ CombatState.playerTurn cb = false)
  /\ exists after,
       GameState.combat (snd (attackEnemy 0 "ogre1" "Basic Attack" s)) = Some after
       /\ map Enemy.health (CombatState.enemies after) = [76]
       /\ CombatState.round after = 3.
Proof.
  intros s. split; [eexists; split; reflexivity|].
  rewrite <- (attackEnemy_ignores_playerTurn 0 "ogre1" "Basic Attack" s _ _ true
                eq_refl eq_refl eq_refl).
  eexists. split; [vm_compute; reflexivity|]. split; reflexivity.
Defined.

Lemma attackEnemy_wounds
  roll enemyId abilityName s cb c (before rest : list Enemy.t) e :
  GameState.combat s = Some cb ->
  GameState.character s = Some c ->
  CombatState.enemies cb = before ++ e :: rest ->
  (forall x, x ∈ before -> Enemy.id x <> enemyId) ->
  Enemy.id e = enemyId ->
  0 <= roll <= 3 ->
  let damage := calculateDamage roll (Stats.strength (Character.stats c))
                                (Stats.dexterity (Character.stats c)) false in
  damage < Enemy.health e ->
  3 * Stats.strength (Character.stats c) / 2 <= damage
  /\ damage <= 3 * Stats.strength (Character.stats c) / 2 + 3
  /\ attackEnemy roll enemyId abilityName s
     = (Some enemyTurn,
        GameState.mk (Some c) (GameState.currentLocation s)
          (GameState.gameLog s
           ++ [GameLogEntry.mk ("You hit " +:+ Enemy.name e +:+ " for "
                                +:+ pretty damage +:+ " damage.")
                               GameLogEntry.combat])
          (GameState.quests s)
          (Some (CombatState.mk (CombatState.inCombat cb)
                   (before ++ Enemy.with_health e (Enemy.health e - damage) :: rest)
                   false (CombatState.round cb + 1) (CombatState.combatLog cb)))
          (GameState.visitedLocations s) (GameState.gameTime s)).
Proof.
  intros Hcb Hc Hroster Hbefore Hid Hroll damage Hsurvives.
  split; [unfold damage, calculateDamage; lia|].
  split; [unfold damage, calculateDamage; lia|].
  destruct (findIndex_first enemyId before rest e Hbefore Hid) as [Hi He].
  rewrite <- Hroster in Hi, He.
  rewrite (attackEnemy_found roll enemyId abilityName s cb c _ e Hcb Hc Hi He).
  fold damage. unfold mbind, store_bind. rewrite strike_run.
  assert (newEnemyHealth e damage = Enemy.health e - damage) as Hhealth
    by (unfold newEnemyHealth; lia).
  assert ((newEnemyHealth e damage <=? 0) = false) as Hlethal
    by (apply Z.leb_gt; lia).
  rewrite (resolve_survives _ _ _ _ _ Hlethal). rewrite Hlethal.
  unfold newEnemies. rewrite Hhealth, Hroster, insert_middle.
  destruct s; simpl in *. now subst.
Qed.

(** X9: a blow that does not kill lowers the health of the first enemy of
    the roster with the given id by the damage, which lies between
    floor(1.5 * strength) and that plus 3 for a roll in 0..3; the other
    enemies, the order of the roster and the character are unchanged, the
    round advances by one, the turn passes to the enemies, one log entry is
    added and the enemy turn is scheduled. *)
Theorem attackEnemy_wounds_first_match
  roll enemyId abilityName s cb c (before rest : list Enemy.t) e :
  GameState.combat s = Some cb ->
  GameState.character s = Some c ->
  CombatState.enemies cb = before ++ e :: rest ->
  (forall x, x ∈ before -> Enemy.id x <> enemyId) ->
  Enemy.id e = enemyId ->
  0 <= roll <= 3 ->
  let damage := calculateDamage roll (Stats.strength (Character.stats c))
                                (Stats.dexterity (Character.stats c)) false in
  damage < Enemy.health e ->
  3 * Stats.strength (Character.stats c) / 2 <= damage
  /\ damage <= 3 * Stats.strength (Character.stats c) / 2 + 3
  /\ attackEnemy roll enemyId abilityName s
     = (Some enemyTurn,
        GameState.mk (Some c) (GameState.currentLocation s)
          (GameState.gameLog s
           ++ [GameLogEntry.mk ("You hit " +:+ Enemy.name e +:+ " for "
                                +:+ pretty damage +:+ " damage.")
                               GameLogEntry.combat])
          (GameState.quests s)
          (Some (CombatState.mk (CombatState.inCombat cb)
                   (before ++ Enemy.with_health e (Enemy.health e - damage) :: rest)
                   false (CombatState.round cb + 1) (CombatState.combatLog cb)))
          (GameState.visitedLocations s) (GameState.gameTime s)).
Proof. exact (attackEnemy_wounds roll enemyId abilityName s cb c before rest e). Qed.

Lemma attackEnemy_wounds_first_match_witness :
  let s := World.store (run aldric [StartCombat [rat; ogre]]) in
  exists after,
    GameState.combat (snd (attackEnemy 2 "ogre1" "Basic Attack" s)) = Some after
    /\ map Enemy.health (CombatState.enemies after) = [1; 86]
    /\ CombatState.round after = 2.
Proof.
  intros s.
  destruct (attackEnemy_wounds_first_match 2 "ogre1" "Basic Attack" s _ _ [rat] [] ogre
              eq_refl eq_refl eq_refl) as (_ & _ & Hrun).
  - intros x ->%list_elem_of_singleton. discriminate.
  - reflexivity.
  - lia.
  - vm_compute. reflexivity.
  - rewrite Hrun. eexists. split; [reflexivity|]. split; reflexivity.
Defined.

(** X10: with a combat and a character in the store, the enemy turn takes
    from the character's health the sum over the roster of
    max(1, floor(1.2 * strength)), which is at least the number of enemies,
    and floors the health at 0; it hands the turn back to the player and
    leaves roster and round as they are, and the combat stays active even
    when the health reaches 0 (one more log entry says so). *)
Theorem enemyTurn_outcome s cb c :
  GameState.combat s = Some cb ->
  GameState.character s = Some c ->
  let total := retaliation (CombatState.enemies cb) in
  let health' := Z.max 0 (Character.health c - total) in
  Z.of_nat (length (CombatState.enemies cb)) <= total
  /\ GameState.character (exec enemyTurn s) = Some (Character.with_health c health')
  /\ GameState.combat (exec enemyTurn s) = Some (combatWithPlayerTurn cb true)
  /\ length (GameState.gameLog (exec enemyTurn s))
     = (length (GameState.gameLog s)
        + if (Character.health c <=? total)%Z then 2 else 1)%nat.
Proof.
  intros Hcb Hc total health'.
  split; [apply (fold_damage_length (CombatState.enemies cb) 0)|].
  rewrite (enemyTurn_log s cb c Hcb Hc). fold total. fold health'. simpl.
  repeat split. rewrite length_app. simpl.
  destruct (Z.leb_spec (Character.health c) total);
    destruct (Z.leb_spec health' 0); simpl; lia.
Qed.

Lemma enemyTurn_outcome_witness :
  let s := World.store (run aldric [GainExperience 150; StartCombat [ogre; ogre; ogre;
                                                                      ogre; ogre]]) in
  exists c' cb',
    GameState.character (exec enemyTurn s) = Some c'
    /\ Character.health c' = 0
    /\ GameState.combat (exec enemyTurn s) = Some cb'
    /\ CombatState.inCombat cb' = true
    /\ CombatState.playerTurn cb' = true.
Proof.
  intros s.
  destruct (enemyTurn_outcome s _ _ eq_refl eq_refl) as (_ & Hc' & Hcb' & _).
  eexists _, _. split; [exact Hc'|]. split; [reflexivity|].
  split; [exact Hcb'|]. split; reflexivity.
Defined.

(** X11: a full round.  In a session with no pending timer, a blow that
    does not kill followed by the elapse of the delay leaves no pending
    timer, the roster with the target wounded, the round advanced by one,
    the turn back with the player, and the character's health lowered by
    the retaliation of the whole roster (computed from the enemies'
    strength, which the blow does not change), floored at 0. *)
Theorem attack_then_enemy_turn
  roll enemyId abilityName w cb c (before rest : list Enemy.t) e :
  World.timers w = [] ->
  GameState.combat (World.store w) = Some cb ->
  GameState.character (World.store w) = Some c ->
  CombatState.enemies cb = before ++ e :: rest ->
  (forall x, x ∈ before -> Enemy.id x <> enemyId) ->
  Enemy.id e = enemyId ->
  0 <= roll <= 3 ->
  let damage := calculateDamage roll (Stats.strength (Character.stats c))
                                (Stats.dexterity (Character.stats c)) false in
  damage < Enemy.health e ->
  let w' := run w [AttackEnemy roll enemyId abilityName; Elapse] in
  World.timers w' = []
  /\ GameState.combat (World.store w')
     = Some (CombatState.mk (CombatState.inCombat cb)
               (before ++ Enemy.with_health e (Enemy.health e - damage) :: rest)
               true (CombatState.round cb + 1) (CombatState.combatLog cb))
  /\ GameState.character (World.store w')
     = Some (Character.with_health c
               (Z.max 0 (Character.health c - retaliation (CombatState.enemies cb)))).
Proof.
  intros Htimers Hcb Hc Hroster Hbefore Hid Hroll damage Hsurvives w'.
  destruct (attackEnemy_wounds roll enemyId abilityName (World.store w)
              cb c before rest e Hcb Hc Hroster Hbefore Hid Hroll Hsurvives)
    as (_ & _ & Hrun).
  fold damage in Hrun. subst w'. unfold run. simpl. rewrite Hrun, Htimers. simpl.
  split; [reflexivity|].
  match goal with
  | |- context [exec enemyTurn ?s1] =>
      rewrite (enemyTurn_log s1 _ c eq_refl eq_refl)
  end.
  simpl. split; [reflexivity|].
  unfold retaliation.
  rewrite (fold_damage_stats
             (before ++ Enemy.with_health e (Enemy.health e - damage) :: rest)
             (CombatState.enemies cb) 0); [reflexivity|].
  rewrite Hroster, !map_app. reflexivity.
Qed.

Lemma attack_then_enemy_turn_witness :
  let w := run aldric [StartCombat [rat; ogre]] in
  let w' := run w [AttackEnemy 2 "ogre1" "Basic Attack"; Elapse] in
  World.timers w = []
  /\ World.timers w' = []
  /\ (exists cb',
        GameState.combat (World.store w') = Some cb'
        /\ CombatState.playerTurn cb' = true /\ CombatState.round cb' = 2)
  /\ exists c',
       GameState.character (World.store w') = Some c' /\ Character.health c' = 42.
Proof.
  intros w w'. split; [reflexivity|].
  destruct (attack_then_enemy_turn 2 "ogre1" "Basic Attack" w _ _ [rat] [] ogre
              eq_refl eq_refl eq_refl eq_refl) as (Htimers & Hcombat & Hcharacter).
  - intros x ->%list_elem_of_singleton. discriminate.
  - reflexivity.
  - lia.
  - vm_compute. reflexivity.
  - split; [exact Htimers|]. split.
    + eexists. split; [exact Hcombat|]. split; reflexivity.
    + eexists. split; [exact Hcharacter|]. reflexivity.
Defined.

Lemma filter_alive_middle (before rest : list Enemy.t) e :
  Enemy.health e <= 0 ->
  List.filter (fun e => Enemy.health e >? 0) (before ++ e :: rest)
  = List.filter (fun e => Enemy.health e >? 0) (before ++ rest).
Proof.
  intros Hdead. rewrite !List.filter_app. simpl.
  replace (Enemy.health e >? 0) with false; [reflexivity|].
  symmetry. rewrite Z.gtb_ltb. apply Z.ltb_ge. lia.
Qed.

(** X12: an enemy killed while another one lives is forfeited.  The
    killing blow leaves the character exactly as it was (no gold, no
    experience, no drops), the roster keeps only the enemies with positive
    health, the round is unchanged and the player keeps the turn; when the
    combat is ended afterwards the gold added is that of this remaining
    roster, so the reward of the enemy killed first is never paid. *)
Theorem killed_enemy_is_forfeited
  roll enemyId abilityName s cb c (before rest : list Enemy.t) e :
  GameState.combat s = Some cb ->
  GameState.character s = Some c ->
  CombatState.enemies cb = before ++ e :: rest ->
  (forall x, x ∈ before -> Enemy.id x <> enemyId) ->
  Enemy.id e = enemyId ->
  let damage := calculateDamage roll (Stats.strength (Character.stats c))
                                (Stats.dexterity (Character.stats c)) false in
  Enemy.health e <= damage ->
  (exists other, other ∈ before ++ rest /\ 0 < Enemy.health other) ->
  let survivors := List.filter (fun e => Enemy.health e >? 0) (before ++ rest) in
  let s' := snd (attackEnemy roll enemyId abilityName s) in
  fst (attackEnemy roll enemyId abilityName s) = None
  /\ GameState.character s' = Some c
  /\ GameState.combat s'
     = Some (CombatState.mk (CombatState.inCombat cb) survivors true
               (CombatState.round cb) (CombatState.combatLog cb))
  /\ GameState.character (exec endCombat s')
     = Some (Character.with_gold c (Character.gold c + totalGold survivors)).
Proof.
  intros Hcb Hc Hroster Hbefore Hid damage Hkill (other & Hother & Halive)
         survivors s'.
  destruct (findIndex_first enemyId before rest e Hbefore Hid) as [Hi He].
  rewrite <- Hroster in Hi, He.
  assert (newEnemyHealth e damage = 0) as Hzero by (unfold newEnemyHealth; lia).
  assert (List.filter (fun e => Enemy.health e >? 0)
                      (newEnemies cb (length before) e damage) = survivors) as Hfilter.
  { unfold newEnemies. rewrite Hroster, insert_middle, Hzero.
    now apply filter_alive_middle. }
  assert (survivors <> []) as Hsome.
  { intros Hnil.
    assert (other ∈ survivors) as Hin.
    { apply list_elem_of_In, filter_In. split; [now apply list_elem_of_In|].
      apply Z.gtb_lt. lia. }
    rewrite Hnil in Hin. now apply not_elem_of_nil in Hin. }
  subst s'.
  rewrite (attackEnemy_found roll enemyId abilityName s cb c _ e Hcb Hc Hi He).
  fold damage. unfold mbind, store_bind. rewrite strike_run.
  rewrite resolve_continues; [|now rewrite Hzero|now rewrite Hfilter].
  rewrite Hfilter. simpl. split; [reflexivity|]. split; [exact Hc|].
  split; [reflexivity|].
  unfold exec. erewrite endCombat_run; [|reflexivity|exact Hc]. reflexivity.
Qed.

Lemma killed_enemy_is_forfeited_witness :
  let s := World.store (run aldric [StartCombat [rat; ogre]]) in
  let s' := snd (attackEnemy 0 "rat1" "Basic Attack" s) in
  Enemy.gold rat = 5
  /\ (exists c', GameState.character s' = Some c' /\ Character.gold c' = 10)
  /\ exists c'',
       GameState.character (exec endCombat s') = Some c''
       /\ Character.gold c'' = 30.
Proof.
  intros s s'. split; [reflexivity|].
  destruct (killed_enemy_is_forfeited 0 "rat1" "Basic Attack" s _ _ [] [ogre] rat
              eq_refl eq_refl eq_refl)
    as (_ & Hc' & _ & Hc'').
  - intros x Hx. now apply not_elem_of_nil in Hx.
  - reflexivity.
  - vm_compute. discriminate.
  - exists ogre. split; [apply list_elem_of_here|]. reflexivity.
  - split.
    + eexists. split; [exact Hc'|]. reflexivity.
    + eexists. split; [exact Hc''|]. reflexivity.
Defined.

(** X13: ending a combat twice pays once: the second [endCombat] finds no
    combat and changes nothing. *)
Theorem endCombat_idempotent s :
  exec endCombat (exec endCombat s) = exec endCombat s.
Proof.
  unfold exec at 2 3.
  destruct (GameState.combat s) as [cb|] eqn:Hcb;
    [|rewrite endCombat_idle by auto; unfold exec; now rewrite endCombat_idle by auto].
  destruct (GameState.character s) as [c|] eqn:Hc;
    [|rewrite endCombat_idle by auto; unfold exec; now rewrite endCombat_idle by auto].
  rewrite (endCombat_run s cb c Hcb Hc). simpl.
  unfold exec. now rewrite endCombat_idle by (left; reflexivity).
Qed.

(** ** Inventory *)

Lemma filter_keeps_others itemId (inv : list Item.t) :
  (forall i, i ∈ inv -> Item.id i <> itemId) ->
  List.filter (fun item => negb (String.eqb (Item.id item) itemId)) inv = inv.
Proof.
  induction inv as [|x inv IH]; intros Hall; [reflexivity|]. simpl.
  destruct (String.eqb_spec (Item.id x) itemId) as [Heq|_].
  - exfalso. apply (Hall x); [apply list_elem_of_here | exact Heq].
  - simpl. f_equal. apply IH. intros i Hi. apply Hall. now apply list_elem_of_further.
Qed.

Lemma filter_drops_id itemId (inv : list Item.t) :
  forall i,
    i ∈ List.filter (fun item => negb (String.eqb (Item.id item) itemId)) inv ->
    Item.id i <> itemId.
Proof.
  intros i [_ Hneq]%list_elem_of_In%filter_In.
  now apply negb_true_iff, String.eqb_neq in Hneq.
Qed.

Lemma with_inventory_same c : Character.with_inventory c (Character.inventory c) = c.
Proof. now destruct c. Qed.

Lemma with_character_same s c :
  GameState.character s = Some c -> GameState.with_character (Some c) s = s.
Proof. destruct s; simpl. now intros ->. Qed.

(** X14: removing by id undoes an addition when no item of the inventory
    had that id: the store is back to what it was; removing an id that no
    item carries changes nothing, and removing twice is removing once. *)
Theorem removeItem_after_addItem :
  (forall item s c,
     GameState.character s = Some c ->
     (forall i, i ∈ Character.inventory c -> Item.id i <> Item.id item) ->
     exec (removeItemFromInventory (Item.id item)) (exec (addItemToInventory item) s) = s)
  /\ (forall itemId s c,
        GameState.character s = Some c ->
        (forall i, i ∈ Character.inventory c -> Item.id i <> itemId) ->
        exec (removeItemFromInventory itemId) s = s)
  /\ (forall itemId s,
        exec (removeItemFromInventory itemId) (exec (removeItemFromInventory itemId) s)
        = exec (removeItemFromInventory itemId) s).
Proof.
  repeat apply conj.
  - intros item s c Hc Hfresh. unfold exec.
    rewrite (addItemToInventory_run item s c Hc). cbn [snd].
    erewrite removeItemFromInventory_run by reflexivity. simpl.
    rewrite List.filter_app. simpl. rewrite String.eqb_refl. simpl.
    rewrite app_nil_r, (filter_keeps_others _ _ Hfresh).
    destruct s, c; simpl in *. now subst.
  - intros itemId s c Hc Hfresh. unfold exec.
    rewrite (removeItemFromInventory_run itemId s c Hc). simpl.
    rewrite (filter_keeps_others _ _ Hfresh), with_inventory_same.
    now apply with_character_same.
  - intros itemId s. unfold exec at 2 3.
    destruct (GameState.character s) as [c|] eqn:Hc.
    + rewrite (removeItemFromInventory_run itemId s c Hc). cbn [snd].
      unfold exec. erewrite removeItemFromInventory_run by reflexivity. simpl.
      rewrite (filter_keeps_others itemId _ (filter_drops_id itemId _)).
      now destruct s.
    + replace (removeItemFromInventory itemId s) with (tt, s)
        by (unfold removeItemFromInventory; run_store; now rewrite Hc).
      simpl. unfold exec, removeItemFromInventory. run_store. now rewrite Hc.
Qed.

Lemma removeItem_after_addItem_witness :
  let s := World.store (run aldric [AddItem herb; AddItem rustyKey]) in
  exec (removeItemFromInventory "tonic") (exec (addItemToInventory tonic) s) = s
  /\ exec (removeItemFromInventory "venom") s = s.
Proof.
  intros s. destruct removeItem_after_addItem as (Hundo & Habsent & _).
  assert (forall itemId, itemId <> "herb" -> itemId <> "key" ->
            forall i, i ∈ [herb; rustyKey] -> Item.id i <> itemId) as Hfresh.
  { intros itemId H1 H2 i [->|[->|Hi]%elem_of_cons]%elem_of_cons; simpl; try congruence.
    now apply not_elem_of_nil in Hi. }
  split.
  - apply (Hundo tonic s _ eq_refl). apply Hfresh; discriminate.
  - apply (Habsent "venom" s _ eq_refl). apply Hfresh; discriminate.
Defined.

Lemma useItem_absent itemId s c :
  GameState.character s = Some c ->
  (forall item, item ∈ Character.inventory c -> Item.id item <> itemId) ->
  useItem itemId s = (tt, s).
Proof.
  intros Hc Habsent. unfold useItem. run_store.
  now rewrite Hc, (find_None_absent itemId _ Habsent).
Qed.

(** X15: an item is consumed by its use: using the same id again right
    away changes nothing, whatever the first use did. *)
Theorem useItem_twice itemId s :
  exec (useItem itemId) (exec (useItem itemId) s) = exec (useItem itemId) s.
Proof.
  unfold exec at 2 3.
  destruct (useItem_cases itemId s) as [Hnoop|(c & item & Hc & _ & Hrun)].
  - rewrite Hnoop. simpl. unfold exec. now rewrite Hnoop.
  - rewrite Hrun. simpl.
    unfold exec. erewrite useItem_absent; [reflexivity|reflexivity|].
    simpl. apply filter_drops_id.
Qed.

(** ** Saving and loading *)


(** ** Starting a game *)

(** X17: with a character in the store, [startNewGame] makes the village
    of the catalog the current location, lists it as visited (once), adds
    the "moved" and the opening entries to the log, and starts no combat
    whatever the encounter roll; without a character it changes nothing. *)
Theorem startNewGame_opens_in_village encounter s :
  (GameState.character s = None -> startNewGame encounter s = (tt, s))
  /\ (is_Some (GameState.character s) ->
      exists village,
        locations !! "village" = Some village
        /\ Location.name village = "Eldermoor Village"
        /\ exec (startNewGame encounter) s
           = GameState.mk (GameState.character s) (Some (Catalogued village))
               (GameState.gameLog s
                ++ [GameLogEntry.mk "You have moved to Eldermoor Village."
                                    GameLogEntry.narrative;
                    GameLogEntry.mk
                      "Your adventure begins in the cursed village of Eldermoor. Darkness lurks in every shadow, but perhaps you can find the light..."
                      GameLogEntry.narrative])
               (GameState.quests s) (GameState.combat s)
               (if existsb (String.eqb "village") (GameState.visitedLocations s)
                then GameState.visitedLocations s
                else GameState.visitedLocations s ++ ["village"])
               (GameState.gameTime s)).
Proof.
  split.
  - intros Hc. unfold startNewGame. run_store. now rewrite Hc.
  - intros [c Hc].
    assert (exists village, locations !! "village" = Some village
                            /\ Location.name village = "Eldermoor Village"
                            /\ Location.enemies village = None)
      as (village & Hloc & Hname & Henemies)
      by (eexists; split; [vm_compute; reflexivity|split; reflexivity]).
    exists village. split; [exact Hloc|]. split; [exact Hname|].
    unfold startNewGame, exec. run_store. rewrite Hc.
    pose proof (moveToLocation_found encounter "village" village s Hloc) as Hmove.
    rewrite Henemies in Hmove. unfold exec in Hmove.
    destruct (moveToLocation encounter "village" s) as [[] s1]. simpl in *.
    subst s1. simpl. rewrite Hname, Hc, <- app_assoc. reflexivity.
Qed.

Lemma startNewGame_opens_in_village_witness :
  is_Some (GameState.character (World.store aldric))
  /\ exists village,
       GameState.currentLocation (exec (startNewGame true) (World.store aldric))
       = Some (Catalogued village)
       /\ Location.id village = "village"
       /\ GameState.combat (exec (startNewGame true) (World.store aldric)) = None
       /\ GameState.visitedLocations (exec (startNewGame true) (World.store aldric))
          = ["village"].
Proof.
  assert (is_Some (GameState.character (World.store aldric))) as Hc
    by (eexists; reflexivity).
  split; [exact Hc|].
  destruct (startNewGame_opens_in_village true (World.store aldric)) as [_ Hstart].
  destruct (Hstart Hc) as (village & Hloc & _ & ->).
  exists village. split; [reflexivity|].
  split; [exact (locations_key_id _ _ Hloc)|]. split; reflexivity.
Defined.

(** ** Stats set from outside *)

(** X18: [updateCharacterStats] overwrites the stats it is given and keeps
    the others, and touches nothing else: maxHealth and maxMana are not
    recomputed by it.  They are at the next level-up, from the updated
    stats grown by the class. *)
Theorem updateCharacterStats_then_level_up stats amount s c :
  GameState.character s = Some c ->
  Character.level c * 100 <= Character.experience c + amount ->
  let updated := spreadStats (Character.stats c) stats in
  exec (updateCharacterStats stats) s
  = GameState.with_character (Some (characterWithStats c updated)) s
  /\ exists c',
       GameState.character
         (exec (gainExperience amount) (exec (updateCharacterStats stats) s))
       = Some c'
       /\ Character.stats c' = grownStats (Character.class c) updated
       /\ Character.maxHealth c'
          = 20 + 5 * Stats.constitution (grownStats (Character.class c) updated)
       /\ Character.maxMana c'
          = 10 * Stats.intelligence (grownStats (Character.class c) updated)
       /\ Character.health c' = Character.maxHealth c'
       /\ Character.mana c' = Character.maxMana c'.
Proof.
  intros Hc Hlevel updated.
  assert (exec (updateCharacterStats stats) s
          = GameState.with_character (Some (characterWithStats c updated)) s) as Hupdate
    by (unfold updateCharacterStats, exec; run_store; now rewrite Hc).
  split; [exact Hupdate|]. rewrite Hupdate. unfold exec.
  erewrite gainExperience_run by reflexivity. simpl.
  eexists. split; [reflexivity|]. unfold gained. simpl.
  replace (Character.experience c + amount >=? Character.level c * 100) with true
    by (symmetry; rewrite Z.geb_leb; now apply Z.leb_le).
  simpl. repeat split; lia.
Qed.

Lemma updateCharacterStats_then_level_up_witness :
  let stats := PartialStats.mk None None (Some 20) None None None in
  exists c1 c2,
    GameState.character (exec (updateCharacterStats stats) (World.store aldric))
    = Some c1
    /\ Stats.constitution (Character.stats c1) = 20
    /\ Character.maxHealth c1 = 55
    /\ GameState.character
         (exec (gainExperience 100)
               (exec (updateCharacterStats stats) (World.store aldric)))
       = Some c2
    /\ Character.maxHealth c2 = 125.
Proof.
  intros stats.
  destruct (updateCharacterStats_then_level_up stats 100 (World.store aldric) _ eq_refl)
    as (Hupdate & c2 & Hc2 & _ & Hmax & _).
  - simpl. lia.
  - eexists _, c2. rewrite Hupdate. split; [reflexivity|].
    split; [reflexivity|]. split; [reflexivity|]. split; [exact Hc2|].
    rewrite Hmax. reflexivity.
Defined.

(** ** A pending enemy turn outlives its combat *)

(** X19: the enemy turn scheduled by a blow is not tied to the combat it
    was scheduled in.  In a session with no pending timer, a blow that
    does not kill, then [endCombat], then a new [startCombat], then the
    elapse of the delay: the pending turn runs in the new combat, and the
    character loses the retaliation of the new roster (floored at 0)
    before having struck any of its enemies. *)
Theorem pending_enemy_turn_hits_next_combat
  roll enemyId abilityName w cb c (before rest : list Enemy.t) e enemies :
  World.timers w = [] ->
  GameState.combat (World.store w) = Some cb ->
  GameState.character (World.store w) = Some c ->
  CombatState.enemies cb = before ++ e :: rest ->
  (forall x, x ∈ before -> Enemy.id x <> enemyId) ->
  Enemy.id e = enemyId ->
  0 <= roll <= 3 ->
  calculateDamage roll (Stats.strength (Character.stats c))
                  (Stats.dexterity (Character.stats c)) false < Enemy.health e ->
  let w' := run w [AttackEnemy roll enemyId abilityName; EndCombat;
                   StartCombat enemies; Elapse] in
  World.timers w' = []
  /\ GameState.combat (World.store w')
     = Some (CombatState.mk true enemies true 1 [])
  /\ exists c',
       GameState.character (World.store w') = Some c'
       /\ Character.health c' = Z.max 0 (Character.health c - retaliation enemies).
Proof.
  intros Htimers Hcb Hc Hroster Hbefore Hid Hroll Hsurvives w'.
  destruct (attackEnemy_wounds roll enemyId abilityName (World.store w)
              cb c before rest e Hcb Hc Hroster Hbefore Hid Hroll Hsurvives)
    as (_ & _ & Hrun).
  assert (w' = World.mk
                 (exec enemyTurn
                    (exec (startCombat enemies)
                       (exec endCombat
                          (snd (attackEnemy roll enemyId abilityName (World.store w))))))
                 []) as ->.
  { subst w'. unfold run. cbn [fold_left].
    assert (step w (AttackEnemy roll enemyId abilityName)
            = World.mk (snd (attackEnemy roll enemyId abilityName (World.store w)))
                       [enemyTurn]) as ->
      by (unfold step; rewrite Hrun, Htimers; reflexivity).
    reflexivity. }
  rewrite Hrun. cbn [snd World.store World.timers].
  split; [reflexivity|].
  match goal with
  | |- context [exec endCombat ?s1] =>
      replace (exec endCombat s1) with (snd (endCombat s1)) by reflexivity;
      erewrite (endCombat_run s1) by reflexivity
  end.
  cbn [snd].
  match goal with
  | |- context [exec enemyTurn ?s3] =>
      rewrite (enemyTurn_log s3 (CombatState.mk true enemies true 1 []) _
                 eq_refl eq_refl)
  end.
  cbn [GameState.combat GameState.character]. split; [reflexivity|].
  eexists. split; reflexivity.
Qed.

Lemma pending_enemy_turn_hits_next_combat_witness :
  let w := run aldric [StartCombat [ogre]] in
  let w' := run w [AttackEnemy 0 "ogre1" "Basic Attack"; EndCombat;
                   StartCombat [shadowWolf; shadowWolf]; Elapse] in
  World.timers w = []
  /\ exists c',
       GameState.character (World.store w') = Some c' /\ Character.health c' = 49.
Proof.
  intros w w'. split; [reflexivity|].
  destruct (pending_enemy_turn_hits_next_combat 0 "ogre1" "Basic Attack" w _ _ [] [] ogre
              [shadowWolf; shadowWolf] eq_refl eq_refl eq_refl eq_refl)
    as (_ & _ & c' & Hc' & Hhealth).
  - intros x Hx. now apply not_elem_of_nil in Hx.
  - reflexivity.
  - lia.
  - vm_compute. reflexivity.
  - exists c'. split; [exact Hc'|]. rewrite Hhealth. reflexivity.
Defined.
